(** * TaskFlow Lite: the task store, its validator and its persistence gateway

    A shallow embedding of [validation.js] (validateTaskText,
    validateTaskObject, checkForDuplicates), [storage.js] (saveTasks,
    loadTasks), the render module's [filterTasks] and the [TaskFlowApp]
    class (createTask, addTask, removeTask, toggleTaskCompletion,
    clearCompletedTasks), followed by the properties of these functions.

    The methods of the class change [this.tasks] and the storage slot: they
    are functions on a [World] that holds both. What a call takes from the
    platform (the clock, the random number, the outcome of
    [localStorage.setItem], the answer to the confirmation dialog) is an
    argument of the function. Rendering reads the state and is left out;
    the messages passed to [showValidationMessage] are part of the results
    of [addTask] and [clearCompletedTasks]. *)

From Stdlib Require Import ZArith NArith List String Ascii Bool Lia DecimalString.
From stdpp Require Import base list strings.

Set Warnings "-register-all".
Local Open Scope string_scope.
Local Open Scope list_scope.

(** ** JavaScript strings

    A JavaScript string is a sequence of UTF-16 code units; [length],
    [trim], the regular expressions of the validator (none has the [u] flag)
    and [includes] all work on code units. *)

Definition jsstring := list N.

(** The code units of an ASCII literal. *)
Fixpoint js (s : string) : jsstring :=
  match s with
  | EmptyString => []
  | String a r => N_of_ascii a :: js r
  end.

Definition jsstring_eqb (a b : jsstring) : bool := bool_decide (a = b).

(** WhiteSpace and LineTerminator code points: the class [\s] of a regular
    expression and the characters removed by [String.prototype.trim]. *)
Definition is_whitespace (c : N) : bool :=
  existsb (N.eqb c)
    [9; 10; 11; 12; 13; 32; 160; 5760; 8232; 8233; 8239; 8287; 12288; 65279]%N
  || ((8192 <=? c) && (c <=? 8202))%N.

(** LineTerminator: the code units that [.] does not match. *)
Definition is_line_terminator (c : N) : bool :=
  existsb (N.eqb c) [10; 13; 8232; 8233]%N.

Fixpoint trimStart (s : jsstring) : jsstring :=
  match s with
  | [] => []
  | c :: r => if is_whitespace c then trimStart r else s
  end.

Fixpoint trimEnd (s : jsstring) : jsstring :=
  match s with
  | [] => []
  | c :: r =>
      match trimEnd r with
      | [] => if is_whitespace c then [] else [c]
      | r' => c :: r'
      end
  end.

(** [String.prototype.trim] *)
Definition trim (s : jsstring) : jsstring := trimEnd (trimStart s).

Fixpoint startsWith (s w : jsstring) : bool :=
  match w, s with
  | [], _ => true
  | _ :: _, [] => false
  | a :: w', c :: s' => (a =? c)%N && startsWith s' w'
  end.

(** [String.prototype.includes] *)
Fixpoint includes (s w : jsstring) : bool :=
  startsWith s w
  || match s with
     | [] => false
     | _ :: r => includes r w
     end.

(** [toLowerCase] restricted to ASCII: the instance of the Unicode case
    mapping used on the concrete ASCII examples below. *)
Definition asciiLower (s : jsstring) : jsstring :=
  map (fun c => if ((65 <=? c) && (c <=? 90))%N then (c + 32)%N else c) s.

(** ** JavaScript numbers

    A number is NaN, an infinity or a finite double. Every finite double is
    an integer multiple of 2^-1074, so a finite value [x] is represented by
    the integer [x * 2^1074]; [+0] and [-0], which [===] and [<=] do not
    tell apart, share the code 0. The functions below only compare numbers
    ([===], [<= 0]) and serialise them. *)

Inductive JsNumber :=
| NaN
| Infinity (negative : bool)
| Finite (scaled : Z).

(** The double of an integer value. *)
Definition num (n : Z) : JsNumber := Finite (n * 2 ^ 1074).
Arguments num : simpl never.

(** [a === b] on numbers *)
Definition num_strict_eq (a b : JsNumber) : bool :=
  match a, b with
  | Finite x, Finite y => (x =? y)%Z
  | Infinity s, Infinity t => eqb s t
  | _, _ => false
  end.

(** [n <= 0] *)
Definition num_le_zero (n : JsNumber) : bool :=
  match n with
  | NaN => false
  | Infinity negative => negative
  | Finite x => (x <=? 0)%Z
  end.

Global Instance JsNumber_eq_dec : EqDecision JsNumber.
Proof. solve_decision. Defined.

Definition is_finite (n : JsNumber) : bool :=
  match n with
  | Finite _ => true
  | _ => false
  end.

(** ** JavaScript values

    The values that JSON.parse returns and that the application builds:
    objects are lists of own properties in insertion order. *)

Inductive JsVal :=
| JUndefined
| JNull
| JBool (b : bool)
| JNum (n : JsNumber)
| JStr (s : jsstring)
| JArr (items : list JsVal)
| JObj (props : list (string * JsVal)).

(** [typeof v] *)
Definition typeof (v : JsVal) : string :=
  match v with
  | JUndefined => "undefined"
  | JNull => "object"
  | JBool _ => "boolean"
  | JNum _ => "number"
  | JStr _ => "string"
  | JArr _ => "object"
  | JObj _ => "object"
  end.

(** ToBoolean: the truthiness tested by [!v], [v && ...] and [if (v)]. *)
Definition truthy (v : JsVal) : bool :=
  match v with
  | JUndefined | JNull => false
  | JBool b => b
  | JNum NaN => false
  | JNum (Finite x) => negb (x =? 0)%Z
  | JNum (Infinity _) => true
  | JStr s => negb (jsstring_eqb s [])
  | JArr _ | JObj _ => true
  end.

Fixpoint lookup_prop (k : string) (props : list (string * JsVal)) : JsVal :=
  match props with
  | [] => JUndefined
  | (k', v) :: rest => if String.eqb k k' then v else lookup_prop k rest
  end.

(** [v.k] for the property names read by the program ([tasks], [id],
    [text], [completed], [createdAt]), none of which an array or a primitive
    has. The program reads a property of a value only after it has tested the
    value to be truthy, so the receiver is never [null] or [undefined]. *)
Definition get (v : JsVal) (k : string) : JsVal :=
  match v with
  | JObj props => lookup_prop k props
  | _ => JUndefined
  end.

(** [Array.isArray] *)
Definition isArray (v : JsVal) : bool :=
  match v with
  | JArr _ => true
  | _ => false
  end.

(** A task object of the collection: an object whose [id] is a number, whose
    [text] is a string and whose [completed] is a boolean, the shape that
    [createTask] builds and that [loadTasks] lets through. [other] holds the
    remaining own properties ([createdAt] among them) in insertion order. *)
Record Task := {
  id : JsNumber;
  text : jsstring;
  completed : bool;
  other : list (string * JsVal)
}.

(** [task.createdAt] *)
Definition createdAt (task : Task) : JsVal := lookup_prop "createdAt" (other task).

(** ** validation.js *)

Module VALIDATION_RULES.
Definition MIN_LENGTH : nat := 1.
Definition MAX_LENGTH : nat := 200.
Definition FORBIDDEN_WORDS : list jsstring :=
  [js "script"; js "javascript"; js "onload"; js "onerror"; js "onclick"].
End VALIDATION_RULES.

(** [RegExp.prototype.test] for a pattern without [^]: the match is tried at
    every start index. *)
Fixpoint search (m : jsstring -> bool) (s : jsstring) : bool :=
  m s
  || match s with
     | [] => false
     | _ :: r => search m r
     end.

(** One character of the class of [ALLOWED_CHARS]:
    a-z, A-Z, 0-9, [\s] and the listed punctuation. *)
Definition allowed_char (c : N) : bool :=
  ((97 <=? c) && (c <=? 122))%N
  || ((65 <=? c) && (c <=? 90))%N
  || ((48 <=? c) && (c <=? 57))%N
  || is_whitespace c
  || existsb (N.eqb c) (34%N :: js "-_.,!?@#$%&*()+=:;'<>[]{}|\/~`").

(** [VALIDATION_RULES.ALLOWED_CHARS.test(s)]: the pattern is anchored at both
    ends and its class is repeated with [+]. *)
Definition ALLOWED_CHARS_test (s : jsstring) : bool :=
  match s with
  | [] => false
  | _ :: _ => forallb allowed_char s
  end.

(** A match of [\s{3,}] at the start of [s]. *)
Definition match_whitespace3 (s : jsstring) : bool :=
  match s with
  | a :: b :: c :: _ => is_whitespace a && is_whitespace b && is_whitespace c
  | _ => false
  end.

(** A match of [(.)\1{4,}] at the start of [s]: [.] takes one code unit that
    is not a line terminator and the back reference repeats it four times. *)
Definition match_repeat5 (s : jsstring) : bool :=
  match s with
  | c :: r => negb (is_line_terminator c) && startsWith r [c; c; c; c]
  | [] => false
  end.

(** The result objects of [validateTaskText] and [validateTaskObject]:
    a failing one is [{ isValid: false, message }], a passing one is
    [{ isValid: true, message: '', sanitizedText }] (or [sanitizedTask]). *)
Inductive Validation (A : Type) :=
| Invalid (msg : string)
| Valid (sanitized : A).
Arguments Invalid {A} msg.
Arguments Valid {A} sanitized.

Definition isValid {A : Type} (r : Validation A) : bool :=
  match r with
  | Valid _ => true
  | Invalid _ => false
  end.

Definition message {A : Type} (r : Validation A) : string :=
  match r with
  | Valid _ => ""
  | Invalid msg => msg
  end.

Definition sanitizedText (r : Validation jsstring) : option jsstring :=
  match r with
  | Valid cleaned => Some cleaned
  | Invalid _ => None
  end.

(** The string held by a value whose [typeof] is ["string"]. *)
Definition string_of (v : JsVal) : jsstring :=
  match v with
  | JStr s => s
  | _ => []
  end.

Record DuplicateCheck := {
  hasDuplicates : bool;
  duplicates : list Task
}.

(** ** storage.js: the slot [localStorage[STORAGE_KEY]]

    JSON.parse and JSON.stringify belong to the platform. The stored text is
    represented by what [loadTasks] can observe of it: no item ([getItem]
    returns [null]), the empty string, a text on which JSON.parse throws a
    SyntaxError, or a text that JSON.parse turns into a value. *)
Inductive Stored :=
| Absent
| EmptyString
| Corrupt
| Parses (parsedData : JsVal).

(** [!storedData] is false exactly on a non-empty text. *)
Definition stored_truthy (s : Stored) : bool :=
  match s with
  | Absent | EmptyString => false
  | Corrupt | Parses _ => true
  end.

(** The properties of an object as JSON.stringify writes them, [f] being
    applied to the values: a property whose value is [undefined] is left
    out. *)
Fixpoint props_json (f : JsVal -> JsVal) (ps : list (string * JsVal))
  : list (string * JsVal) :=
  match ps with
  | [] => []
  | (k, JUndefined) :: r => props_json f r
  | (k, x) :: r => (k, f x) :: props_json f r
  end.

(** [JSON.parse(JSON.stringify(v))]: a number that is not finite and an
    [undefined] array item are written as [null]. *)
Fixpoint stringify_parse (v : JsVal) : JsVal :=
  match v with
  | JUndefined => JNull
  | JNum n => if is_finite n then v else JNull
  | JArr items => JArr (map stringify_parse items)
  | JObj props => JObj (props_json stringify_parse props)
  | _ => v
  end.

(** What [localStorage.setItem] does: it stores the text, or throws a
    QuotaExceededError, or throws another error. [getItem], [removeItem] and
    [clear] do not throw. *)
Inductive WriteOutcome :=
| Written
| QuotaExceededError
| OtherError.

(** The environment of one call of [saveTasks]: [Date.now()] and the
    outcome of [setItem], for the first write and for the retry. *)
Record SaveEnv := {
  first_now : JsNumber;
  first_write : WriteOutcome;
  retry_now : JsNumber;
  retry_write : WriteOutcome
}.

Definition STORAGE_VERSION : jsstring := js "1.0".

(** A task of the collection as a JavaScript object. *)
Definition object_of_task (task : Task) : JsVal :=
  JObj (("id", JNum (id task)) :: ("text", JStr (text task))
        :: ("completed", JBool (completed task)) :: other task).

(** [{ version: STORAGE_VERSION, timestamp: Date.now(), tasks: tasks }] *)
Definition dataToStore (now : JsNumber) (tasks : list Task) : JsVal :=
  JObj [("version", JStr STORAGE_VERSION); ("timestamp", JNum now);
        ("tasks", JArr (map object_of_task tasks))].

(** The slot after [localStorage.setItem(STORAGE_KEY, JSON.stringify(v))]
    has stored the text. *)
Definition setItem_stringify (v : JsVal) : Stored := Parses (stringify_parse v).

Definition saveTasks (env : SaveEnv) (tasks : list Task) (slot : Stored) : Stored * bool :=
  match first_write env with
  | Written =>
      let slot' := setItem_stringify (dataToStore (first_now env) tasks) in
      let savedData := slot' in
      if negb (stored_truthy savedData) then (slot', false) else (slot', true)
  | QuotaExceededError =>
      (* localStorage.clear() and one retry *)
      match retry_write env with
      | Written => (setItem_stringify (dataToStore (retry_now env) tasks), true)
      | _ => (Absent, false)
      end
  | OtherError => (slot, false)
  end.

(** The test of the filter callback of [loadTasks] on one entry. *)
Definition task_shaped (task : JsVal) : bool :=
  truthy task
  && String.eqb (typeof task) "object"
  && String.eqb (typeof (get task "id")) "number"
  && String.eqb (typeof (get task "text")) "string"
  && String.eqb (typeof (get task "completed")) "boolean".

Definition number_of (v : JsVal) : JsNumber :=
  match v with
  | JNum n => n
  | _ => NaN
  end.

Definition boolean_of (v : JsVal) : bool :=
  match v with
  | JBool b => b
  | _ => false
  end.

Definition items_of (v : JsVal) : list JsVal :=
  match v with
  | JArr items => items
  | _ => []
  end.

Definition props_of (v : JsVal) : list (string * JsVal) :=
  match v with
  | JObj props => props
  | _ => []
  end.

Definition shape_key (k : string) : bool :=
  String.eqb k "id" || String.eqb k "text" || String.eqb k "completed".

(** An entry that passed [task_shaped], as a task of the collection. *)
Definition task_of_object (v : JsVal) : Task :=
  {| id := number_of (get v "id");
     text := string_of (get v "text");
     completed := boolean_of (get v "completed");
     other := List.filter (fun kv => negb (shape_key (fst kv))) (props_of v) |}.

(** [loadTasks()]: the returned array and the slot afterwards. *)
Definition loadTasks (slot : Stored) : list Task * Stored :=
  match slot with
  | Absent | EmptyString => ([], slot)
  | Corrupt =>
      (* JSON.parse throws a SyntaxError: removeItem(STORAGE_KEY) *)
      ([], Absent)
  | Parses parsedData =>
      if negb (truthy parsedData) || negb (String.eqb (typeof parsedData) "object") then
        ([], slot)
      else if negb (truthy (get parsedData "tasks")) || negb (isArray (get parsedData "tasks")) then
        ([], slot)
      else
        let validTasks := List.filter task_shaped (items_of (get parsedData "tasks")) in
        (map task_of_object validTasks, slot)
  end.

(** ** The render module: filterTasks *)

Definition filterTasks (tasks : list Task) (filter : JsVal) : list Task :=
  match filter with
  | JStr s =>
      if jsstring_eqb s (js "active") then List.filter (fun task => negb (completed task)) tasks
      else if jsstring_eqb s (js "completed") then List.filter (fun task => completed task) tasks
      else tasks
  | _ => tasks
  end.

(** [Array.prototype.findIndex]; [None] stands for [-1]. *)
Fixpoint findIndex {A : Type} (p : A -> bool) (l : list A) : option nat :=
  match l with
  | [] => None
  | x :: r => if p x then Some 0 else option_map S (findIndex p r)
  end.

(** ** The application class *)

(** [this.tasks], [this.currentFilter] and the storage slot. *)
Record World := {
  tasks : list Task;
  currentFilter : JsVal;
  localStorage : Stored
}.

(** A call of [showValidationMessage(message, type)]. *)
Record Shown := {
  shown_message : string;
  shown_type : string
}.

(** The environment of one call of [addTask]: the value of
    [Date.now() + Math.random()], of [new Date().toISOString()], and the
    environment of the save. *)
Record AddEnv := {
  new_id : JsNumber;
  new_createdAt : jsstring;
  add_save : SaveEnv
}.

Definition createTask (rawText : jsstring) (env : AddEnv) : Task :=
  {| id := new_id env;
     text := trim rawText;
     completed := false;
     other := [("createdAt", JStr (new_createdAt env))] |}.

(** The method [saveTasks()] of the class: the result of the save is only
    logged. *)
Definition App_saveTasks (env : SaveEnv) (w : World) : World :=
  {| tasks := tasks w;
     currentFilter := currentFilter w;
     localStorage := fst (saveTasks env (tasks w) (localStorage w)) |}.

Definition set_tasks (ts : list Task) (w : World) : World :=
  {| tasks := ts; currentFilter := currentFilter w; localStorage := localStorage w |}.

Definition removeTask (taskId : JsNumber) (env : SaveEnv) (w : World) : World :=
  match findIndex (fun task => num_strict_eq (id task) taskId) (tasks w) with
  | Some index => App_saveTasks env (set_tasks (delete index (tasks w)) w)
  | None => w
  end.

(** The value of the call [removeTask(taskId)]: the method has no [return]
    statement, on either path. *)
Definition removeTask_value (taskId : JsNumber) (w : World) : JsVal :=
  match findIndex (fun task => num_strict_eq (id task) taskId) (tasks w) with
  | Some index => JUndefined
  | None => JUndefined
  end.

(** [task.completed = !task.completed] *)
Definition flip_completed (task : Task) : Task :=
  {| id := id task; text := text task;
     completed := negb (completed task); other := other task |}.

(** [find] returns the first task with the id, an object of the array, and
    the assignment changes it in place. *)
Definition toggleTaskCompletion (taskId : JsNumber) (env : SaveEnv) (w : World) : World :=
  match findIndex (fun task => num_strict_eq (id task) taskId) (tasks w) with
  | Some index => App_saveTasks env (set_tasks (alter flip_completed index (tasks w)) w)
  | None => w
  end.

Definition decimal (n : nat) : string := NilZero.string_of_uint (Nat.to_uint n).

(** [accepted] tells which callback of [showConfirmation] the user runs. *)
Definition clearCompletedTasks (accepted : bool) (env : SaveEnv) (w : World)
  : World * list Shown :=
  let completedCount := length (List.filter (fun task => completed task) (tasks w)) in
  if (completedCount =? 0)%nat then
    (w, [{| shown_message := "No completed tasks to clear"; shown_type := "warning" |}])
  else if accepted then
    (App_saveTasks env (set_tasks (List.filter (fun task => negb (completed task)) (tasks w)) w),
     [{| shown_message := decimal completedCount ++ " completed task(s) cleared";
         shown_type := "success" |}])
  else (w, []).

(** ** Notions used by the properties *)

(** [id] is the id of some task of the collection, under [===]. *)
Definition has_id (taskId : JsNumber) (ts : list Task) : Prop :=
  Exists (fun task => num_strict_eq (id task) taskId = true) ts.

(** No task of the collection has the id. *)
Definition lacks_id (taskId : JsNumber) (ts : list Task) : Prop :=
  Forall (fun task => num_strict_eq (id task) taskId = false) ts.

(** The slot holds the serialisation of exactly the collection in memory. *)
Definition persisted (w : World) : Prop :=
  exists now, localStorage w = setItem_stringify (dataToStore now (tasks w)).

(** The write of [saveTasks] goes through, at once or on the retry. *)
Definition write_succeeds (env : SaveEnv) : bool :=
  match first_write env with
  | Written => true
  | QuotaExceededError =>
      match retry_write env with
      | Written => true
      | _ => false
      end
  | OtherError => false
  end.


(** A task with the four properties [id], [text], [completed] and a
    string [createdAt]. *)
Definition four_fields (task : Task) : Prop :=
  exists stamp, other task = [("createdAt", JStr stamp)].

(** A task that JSON.stringify writes and JSON.parse reads back unchanged:
    a finite [id], and further properties that are JSON values and none of
    which is named like one of the three shape properties. *)
Definition serialisable (task : Task) : Prop :=
  is_finite (id task) = true
  /\ props_json stringify_parse (other task) = other task
  /\ Forall (fun kv => shape_key (fst kv) = false) (other task).

(** An entry with a number [id], a string [text] and a boolean
    [completed]. *)
Definition has_task_fields (entry : JsVal) : bool :=
  match get entry "id", get entry "text", get entry "completed" with
  | JNum _, JStr _, JBool _ => true
  | _, _, _ => false
  end.

(** The task [task] is the entry [entry]: same [id], [text], [completed],
    and the same value under every other property name. *)
Definition same_fields (entry : JsVal) (task : Task) : Prop :=
  get entry "id" = JNum (id task)
  /\ get entry "text" = JStr (text task)
  /\ get entry "completed" = JBool (completed task)
  /\ forall k, shape_key k = false -> lookup_prop k (other task) = get entry k.

(** *** The rules of the validator, in the words of the specification *)

(** The length of the longest prefix of [s] made of characters in [p]. *)
Fixpoint prefix_run (p : N -> bool) (s : jsstring) : nat :=
  match s with
  | c :: r => if p c then S (prefix_run p r) else 0
  | [] => 0
  end.

(** The length of the longest run of consecutive characters in [p]. *)
Fixpoint longest_run (p : N -> bool) (s : jsstring) : nat :=
  match s with
  | [] => 0
  | _ :: r => Nat.max (prefix_run p s) (longest_run p r)
  end.

(** The length of the longest run of one repeated character. *)
Fixpoint longest_repeat (s : jsstring) : nat :=
  match s with
  | [] => 0
  | c :: r => Nat.max (S (prefix_run (N.eqb c) r)) (longest_repeat r)
  end.

(** The messages of [validateTaskText], under the names of the failures. *)
Module Reason.
Definition required := "Please enter a task description".
Definition too_short := "Task description cannot be empty".
Definition too_long := "Task description cannot exceed 200 characters".
Definition invalid_characters := "Task description contains invalid characters".
Definition forbidden_content := "Task description contains forbidden content".
Definition excessive_whitespace := "Task description contains excessive whitespace".
Definition repetitive_characters :=
  "Task description contains too many repeated characters".
End Reason.

(** A rule gives the reason of its failure on a trimmed text. *)
Definition Rule := jsstring -> option string.

(** The first failure wins. *)
Fixpoint first_failure (rules : list Rule) (t : jsstring) : option string :=
  match rules with
  | [] => None
  | rule :: rest =>
      match rule t with
      | Some reason => Some reason
      | None => first_failure rest t
      end
  end.

Definition fails_when (b : bool) (reason : string) : option string :=
  if b then Some reason else None.

(** Rule 1 as the specification words it: a non-empty string after
    trimming. *)
Definition nonempty_after_trim (input : JsVal) : bool :=
  match input with
  | JStr s => negb (length (trim s) =? 0)%nat
  | _ => false
  end.

(** Rule 1 as the program tests it: a non-empty string. *)
Definition nonempty_string (input : JsVal) : bool :=
  match input with
  | JStr s => negb (length s =? 0)%nat
  | _ => false
  end.

(** ** Further functions of the modules *)

(** A call either throws an [Error] with a message or returns. *)
Inductive Outcome (A : Type) :=
| Throws (msg : string)
| Returns (x : A).
Arguments Throws {A} msg.
Arguments Returns {A} x.

(** [v || d] *)
Definition or_else (v d : JsVal) : JsVal := if truthy v then v else d.

(** [v === 'literal'] *)
Definition is_literal (v : JsVal) (literal : string) : bool :=
  match v with
  | JStr s => jsstring_eqb s (js literal)
  | _ => false
  end.

(** *** validation.js: sanitizeTaskText, validateTaskId *)

(** [s.replace(/\s+/g, ' ')]: every maximal run of whitespace becomes one
    space, written here when the last character of the run is reached. *)
Fixpoint collapse_whitespace (s : jsstring) : jsstring :=
  match s with
  | [] => []
  | c :: r =>
      if is_whitespace c then
        match r with
        | c' :: _ =>
            if is_whitespace c' then collapse_whitespace r
            else 32%N :: collapse_whitespace r
        | [] => [32%N]
        end
      else c :: collapse_whitespace r
  end.

(** [s.replace(/[<>]/g, '')] *)
Definition strip_angle_brackets (s : jsstring) : jsstring :=
  List.filter (fun c => negb ((c =? 60) || (c =? 62))%N) s.

Definition sanitizeTaskText (text : JsVal) : jsstring :=
  if negb (truthy text) || negb (String.eqb (typeof text) "string") then []
  else
    firstn VALIDATION_RULES.MAX_LENGTH
      (strip_angle_brackets (collapse_whitespace (trim (string_of text)))).

(** [Number.MAX_SAFE_INTEGER] *)
Definition MAX_SAFE_INTEGER : Z := 2 ^ 53 - 1.

(** [Number.isInteger(n)] *)
Definition isInteger (n : JsNumber) : bool :=
  match n with
  | Finite x => (x mod 2 ^ 1074 =? 0)%Z
  | _ => false
  end.

(** [n > 0] *)
Definition num_gt_zero (n : JsNumber) : bool :=
  match n with
  | NaN => false
  | Infinity negative => negb negative
  | Finite x => (0 <? x)%Z
  end.

(** [n <= bound] for an integer [bound] *)
Definition num_le_int (n : JsNumber) (bound : Z) : bool :=
  match n with
  | NaN => false
  | Infinity negative => negative
  | Finite x => (x <=? bound * 2 ^ 1074)%Z
  end.

Definition validateTaskId (taskId : JsVal) : bool :=
  String.eqb (typeof taskId) "number"
  && isInteger (number_of taskId)
  && num_gt_zero (number_of taskId)
  && num_le_int (number_of taskId) MAX_SAFE_INTEGER.

Definition validateCompletionStatus (status : JsVal) : bool :=
  String.eqb (typeof status) "boolean".

(** [{ ...task, k: v }]: the own properties of [task] in their order, the
    one named [k] with its new value, or [k] added at the end. *)
Fixpoint assign_prop (k : string) (v : JsVal) (props : list (string * JsVal))
  : list (string * JsVal) :=
  match props with
  | [] => [(k, v)]
  | (k', v') :: rest =>
      if String.eqb k k' then (k', v) :: rest else (k', v') :: assign_prop k v rest
  end.


(** *** storage.js: exportTasks, importTasks *)

(** A string as JSON.parse sees it: it throws a SyntaxError with a message
    of the platform, or returns a value. *)
Inductive JsonText :=
| Malformed (syntaxMessage : string)
| Text (value : JsVal).

(** [exportTasks(tasks)], [exportedAt] being [new Date().toISOString()];
    the indentation asked of JSON.stringify does not change what the text
    parses to. *)
Definition exportTasks (exportedAt : jsstring) (tasks : list Task) : JsonText :=
  Text (stringify_parse
          (JObj [("version", JStr STORAGE_VERSION);
                 ("exportedAt", JStr exportedAt);
                 ("taskCount", JNum (num (Z.of_nat (length tasks))));
                 ("tasks", JArr (map object_of_task tasks))])).

(** The environment of [importTasks]: for the entry kept at each position,
    the value of [Date.now() + Math.random()] and of
    [new Date().toISOString()]. *)
Record ImportEnv := {
  fresh_id : nat -> JsNumber;
  fresh_createdAt : nat -> jsstring
}.

(** The test of the filter callback of [importTasks]. *)
Definition import_keeps (task : JsVal) : bool :=
  truthy task
  && String.eqb (typeof task) "object"
  && String.eqb (typeof (get task "text")) "string"
  && (0 <? length (trim (string_of (get task "text"))))%nat.

(** The map callback of [importTasks]. *)
Definition import_task (env : ImportEnv) (index : nat) (task : JsVal) : JsVal :=
  JObj [("id", or_else (get task "id") (JNum (fresh_id env index)));
        ("text", JStr (trim (string_of (get task "text"))));
        ("completed", JBool (truthy (get task "completed")));
        ("createdAt", or_else (get task "createdAt") (JStr (fresh_createdAt env index)))].

Definition importTasks (env : ImportEnv) (jsonString : JsonText) : Outcome (list JsVal) :=
  match jsonString with
  | Malformed syntaxMessage => Throws ("Import failed: " ++ syntaxMessage)
  | Text importedData =>
      if negb (truthy importedData) || negb (String.eqb (typeof importedData) "object") then
        Throws ("Import failed: " ++ "Invalid import data format")
      else if negb (truthy (get importedData "tasks"))
              || negb (isArray (get importedData "tasks")) then
        Throws ("Import failed: " ++ "Import data missing tasks array")
      else
        Returns (imap (import_task env)
                   (List.filter import_keeps (items_of (get importedData "tasks"))))
  end.

(** *** The render module: updateTaskCount, addTaskToList *)

(** The two numbers that [updateTaskCount] writes: the total and the count
    of completed tasks. *)
Definition updateTaskCount (tasks : list Task) : nat * nat :=
  (length tasks, length (List.filter (fun task => completed task) tasks)).

(** [shouldShow] in [addTaskToList]; the parameter [filter] defaults to
    ['all']. *)
Definition shouldShow (filter : JsVal) (task : Task) : bool :=
  let filter :=
    match filter with
    | JUndefined => JStr (js "all")
    | _ => filter
    end in
  is_literal filter "all"
  || (is_literal filter "active" && negb (completed task))
  || (is_literal filter "completed" && completed task).

(** *** Notions used by the further properties *)

(** A task that [exportTasks] writes and [importTasks] reads back as it is:
    a finite id other than 0, a text that is trimmed and not empty, and a
    non-empty string [createdAt] as only further property. *)
Definition exportable (task : Task) : Prop :=
  is_finite (id task) = true
  /\ truthy (JNum (id task)) = true
  /\ trim (text task) = text task
  /\ text task <> []
  /\ exists stamp, stamp <> [] /\ other task = [("createdAt", JStr stamp)].

(** [imported] is what [importTasks] makes of [entry]: its trimmed text,
    the truthiness of its [completed], and its [id] and [createdAt] when
    they are truthy. *)
Definition imported_from (entry imported : JsVal) : Prop :=
  exists taskId stamp,
    imported
    = JObj [("id", taskId);
            ("text", JStr (trim (string_of (get entry "text"))));
            ("completed", JBool (truthy (get entry "completed")));
            ("createdAt", stamp)]
    /\ trim (string_of (get entry "text")) <> []
    /\ (truthy (get entry "id") = true -> taskId = get entry "id")
    /\ (truthy (get entry "createdAt") = true -> stamp = get entry "createdAt").

(** An entry that is an object with a string text that is not blank. *)
Definition has_text (entry : JsVal) : bool :=
  match entry with
  | JObj props =>
      match lookup_prop "text" props with
      | JStr s => negb (forallb is_whitespace s)
      | _ => false
      end
  | _ => false
  end.

(** [task'] is [task] up to the completed flag. *)
Definition same_identity (task task' : Task) : Prop :=
  id task' = id task /\ text task' = text task /\ other task' = other task.

(** ** Sample data *)

Module Sample.
Definition stamp : JsVal := JStr (js "2024-05-01T09:00:00.000Z").

Definition milk : Task :=
  {| id := num 1; text := js "Buy milk"; completed := false;
     other := [("createdAt", stamp)] |}.

Definition bread : Task :=
  {| id := num 2; text := js "Bake bread"; completed := true;
     other := [("createdAt", stamp)] |}.

(** A task whose id is not finite, as JSON.parse reads [1e999]. *)
Definition endless : Task :=
  {| id := Infinity false; text := js "Buy milk"; completed := false;
     other := [("createdAt", stamp)] |}.

(** Every write goes through. *)
Definition writes : SaveEnv :=
  {| first_now := num 1714554000000; first_write := Written;
     retry_now := num 1714554000001; retry_write := Written |}.

(** [setItem] throws an error that is not a QuotaExceededError. *)
Definition refuses : SaveEnv :=
  {| first_now := num 1714554000000; first_write := OtherError;
     retry_now := num 1714554000001; retry_write := OtherError |}.

(** The quota is exceeded, and again on the retry. *)
Definition full : SaveEnv :=
  {| first_now := num 1714554000000; first_write := QuotaExceededError;
     retry_now := num 1714554000001; retry_write := QuotaExceededError |}.

Definition adds (n : Z) : AddEnv :=
  {| new_id := num n; new_createdAt := js "2024-05-01T09:00:00.000Z";
     add_save := writes |}.

Definition world : World :=
  {| tasks := [milk; bread]; currentFilter := JStr (js "all");
     localStorage := Absent |}.

Definition entry (n : Z) (label : string) : JsVal :=
  JObj [("id", JNum (num n)); ("text", JStr (js label)); ("completed", JBool false)].

(** A stored payload with two entries of the same id. *)
Definition twins : JsVal :=
  JObj [("version", JStr (js "1.0")); ("timestamp", JNum (num 1714554000000));
        ("tasks", JArr [entry 1 "Buy milk"; entry 1 "Walk the dog"])].

(** A stored payload with an entry whose text is the empty string. *)
Definition blank : JsVal :=
  JObj [("version", JStr (js "1.0")); ("timestamp", JNum (num 1714554000000));
        ("tasks", JArr [entry 1 ""])].

(** A stored payload with a well-shaped entry, an entry whose id is a
    string, and [null]. *)
Definition mixed : JsVal :=
  JObj [("tasks",
         JArr [entry 1 "Buy milk";
               JObj [("id", JStr (js "2")); ("text", JStr (js "Bake bread"));
                     ("completed", JBool true)];
               JNull])].


(** The collection that a stored id [1e999] loads as. *)
Definition endless_world : World :=
  {| tasks := [endless]; currentFilter := JStr (js "all"); localStorage := Absent |}.

(** An object as an import or a form may hand it over: markup in the
    text, no id. *)
Definition markup : JsVal :=
  JObj [("text", JStr (js " <b>Buy</b>   milk ")); ("completed", JBool true)].

(** The environment of an import: ids from 100 on, one creation stamp. *)
Definition importer : ImportEnv :=
  {| fresh_id := fun index => num (100 + Z.of_nat index);
     fresh_createdAt := fun _ => js "2024-05-02T10:00:00.000Z" |}.
End Sample.

Section TaskFlow.

(** [String.prototype.toLowerCase], the Unicode case mapping of the
    platform. *)
Variable toLowerCase : jsstring -> jsstring.

Definition validateTaskText (text : JsVal) : Validation jsstring :=
  if negb (truthy text) || negb (String.eqb (typeof text) "string") then
    Invalid "Please enter a task description"
  else
    let trimmedText := trim (string_of text) in
    if (length trimmedText <? VALIDATION_RULES.MIN_LENGTH)%nat then
      Invalid "Task description cannot be empty"
    else if (VALIDATION_RULES.MAX_LENGTH <? length trimmedText)%nat then
      Invalid "Task description cannot exceed 200 characters"
    else if negb (ALLOWED_CHARS_test trimmedText) then
      Invalid "Task description contains invalid characters"
    else
      let lowerText := toLowerCase trimmedText in
      if existsb (includes lowerText) VALIDATION_RULES.FORBIDDEN_WORDS then
        Invalid "Task description contains forbidden content"
      else if search match_whitespace3 trimmedText then
        Invalid "Task description contains excessive whitespace"
      else if search match_repeat5 trimmedText then
        Invalid "Task description contains too many repeated characters"
      else Valid trimmedText.

(** On a task of the collection the [typeof] tests hold; the tests on the
    values remain. *)
Definition validateTaskObject (task : Task) : Validation Task :=
  if num_le_zero (id task) then Invalid "Task must have a valid ID"
  else if (length (trim (text task)) =? 0)%nat then
    Invalid "Task must have a valid text description"
  else
    match validateTaskText (JStr (text task)) with
    | Invalid msg => Invalid msg
    | Valid cleaned =>
        Valid {| id := id task; text := cleaned;
                 completed := completed task; other := other task |}
    end.

Definition checkForDuplicates (newTaskText : jsstring) (existingTasks : list Task)
  : DuplicateCheck :=
  let normalizedNewText := toLowerCase (trim newTaskText) in
  let duplicates :=
    List.filter
      (fun task => jsstring_eqb (toLowerCase (trim (text task))) normalizedNewText)
      existingTasks in
  {| hasDuplicates := (0 <? length duplicates)%nat; duplicates := duplicates |}.

Definition showValidationMessage (msg type : string) : Shown :=
  {| shown_message := msg; shown_type := type |}.

(** [addTask(text)]: the world afterwards, the returned boolean and the
    message shown. Nothing in the body of the [try] throws on these values,
    so the [catch] is never entered. *)
Definition addTask (rawText : JsVal) (env : AddEnv) (w : World) : World * bool * Shown :=
  match validateTaskText rawText with
  | Invalid msg => (w, false, showValidationMessage msg "error")
  | Valid cleaned =>
      let duplicateCheck := checkForDuplicates cleaned (tasks w) in
      if hasDuplicates duplicateCheck then
        (w, false, showValidationMessage "This task already exists" "warning")
      else
        let newTask := createTask cleaned env in
        match validateTaskObject newTask with
        | Invalid msg => (w, false, showValidationMessage msg "error")
        | Valid task =>
            (App_saveTasks (add_save env) (set_tasks (task :: tasks w) w),
             true, showValidationMessage "Task added successfully!" "success")
        end
  end.

(** [isStorageAvailable()]: [probe] is the outcome of its [setItem] on the
    test key, which is then removed; any error makes it answer false. The
    slot of the tasks is another key. *)
Definition isStorageAvailable (probe : WriteOutcome) : bool :=
  match probe with
  | Written => true
  | QuotaExceededError | OtherError => false
  end.

(** [init()]: when the storage is not available it throws before
    [loadTasks] is called, and the collection stays as the constructor made
    it; otherwise the collection is what [loadTasks] returns. *)
Definition init (probe : WriteOutcome) (slot : Stored) : World :=
  if negb (isStorageAvailable probe) then
    {| tasks := []; currentFilter := JStr (js "all"); localStorage := slot |}
  else
    {| tasks := fst (loadTasks slot);
       currentFilter := JStr (js "all");
       localStorage := snd (loadTasks slot) |}.

(** The operations of the store, each with its environment. *)
Inductive Action :=
| AddTask (rawText : JsVal) (env : AddEnv)
| ToggleTaskCompletion (taskId : JsNumber) (env : SaveEnv)
| RemoveTask (taskId : JsNumber) (env : SaveEnv)
| ClearCompletedTasks (accepted : bool) (env : SaveEnv).

Definition step (w : World) (a : Action) : World :=
  match a with
  | AddTask rawText env => fst (fst (addTask rawText env w))
  | ToggleTaskCompletion taskId env => toggleTaskCompletion taskId env w
  | RemoveTask taskId env => removeTask taskId env w
  | ClearCompletedTasks accepted env => fst (clearCompletedTasks accepted env w)
  end.

Definition run (actions : list Action) (w : World) : World := fold_left step actions w.

(** The environment of the save that an action makes. *)
Definition save_env (a : Action) : SaveEnv :=
  match a with
  | AddTask _ env => add_save env
  | ToggleTaskCompletion _ env => env
  | RemoveTask _ env => env
  | ClearCompletedTasks _ env => env
  end.

(** The tests that [validateTaskText] runs once the text is trimmed. *)
Definition check_trimmed (trimmedText : jsstring) : Validation jsstring :=
  if (length trimmedText <? VALIDATION_RULES.MIN_LENGTH)%nat then
    Invalid "Task description cannot be empty"
  else if (VALIDATION_RULES.MAX_LENGTH <? length trimmedText)%nat then
    Invalid "Task description cannot exceed 200 characters"
  else if negb (ALLOWED_CHARS_test trimmedText) then
    Invalid "Task description contains invalid characters"
  else if existsb (includes (toLowerCase trimmedText)) VALIDATION_RULES.FORBIDDEN_WORDS then
    Invalid "Task description contains forbidden content"
  else if search match_whitespace3 trimmedText then
    Invalid "Task description contains excessive whitespace"
  else if search match_repeat5 trimmedText then
    Invalid "Task description contains too many repeated characters"
  else Valid trimmedText.

(** Rules 2 to 6 of the specification, on the trimmed text. *)
Definition text_rules : list Rule :=
  [ (fun t => if (length t <? 1)%nat then Some Reason.too_short
              else fails_when (200 <? length t)%nat Reason.too_long);
    (fun t => fails_when (negb (forallb allowed_char t)) Reason.invalid_characters);
    (fun t => fails_when
                (existsb (fun word => includes (toLowerCase t) word)
                         VALIDATION_RULES.FORBIDDEN_WORDS)
                Reason.forbidden_content);
    (fun t => fails_when (3 <=? longest_run is_whitespace t)%nat
                Reason.excessive_whitespace);
    (fun t => fails_when (5 <=? longest_repeat t)%nat Reason.repetitive_characters) ].

(** The validator of the specification, for a given first rule. *)
Definition validate_by_rules (rule1 : JsVal -> bool) (input : JsVal) : Validation jsstring :=
  if negb (rule1 input) then Invalid Reason.required
  else
    let cleaned := trim (string_of input) in
    match first_failure text_rules cleaned with
    | Some reason => Invalid reason
    | None => Valid cleaned
    end.

(** The text of the task passes the validator. *)
Definition text_ok (task : Task) : Prop :=
  isValid (validateTaskText (JStr (text task))) = true.

(** Every text of the collection, and every text that [loadTasks] would
    read from the slot, passes the validator. *)
Definition store_texts_ok (w : World) : Prop :=
  Forall text_ok (tasks w) /\ Forall text_ok (fst (loadTasks (localStorage w))).

(** The new text is, once trimmed and put in lower case, the text of some
    task of the collection. *)
Definition duplicate_of (newTaskText : jsstring) (ts : list Task) : Prop :=
  Exists (fun task => toLowerCase (trim (text task)) = toLowerCase (trim newTaskText)) ts.


(** *** validateTaskObject on any value, validateTaskArray,
    sanitizeTaskForStorage *)

(** [validateTaskObject] on an arbitrary value; [validateTaskObject] above
    is this function on the tasks of the collection (see
    [validateTaskObject_any_task]). *)
Definition validateTaskObject_any (task : JsVal) : Validation JsVal :=
  if negb (truthy task) || negb (String.eqb (typeof task) "object") then
    Invalid "Invalid task object"
  else if negb (String.eqb (typeof (get task "id")) "number")
          || num_le_zero (number_of (get task "id")) then
    Invalid "Task must have a valid ID"
  else if negb (String.eqb (typeof (get task "text")) "string")
          || (length (trim (string_of (get task "text"))) =? 0)%nat then
    Invalid "Task must have a valid text description"
  else if negb (String.eqb (typeof (get task "completed")) "boolean") then
    Invalid "Task must have a valid completion status"
  else
    match validateTaskText (get task "text") with
    | Invalid msg => Invalid msg
    | Valid cleaned => Valid (JObj (assign_prop "text" (JStr cleaned) (props_of task)))
    end.



(** [sanitizeTaskForStorage(taskData)], [now] being [Date.now()] and
    [stamp] being [new Date().toISOString()]. *)
Definition sanitizeTaskForStorage (taskData : JsVal) (now : JsNumber) (stamp : jsstring)
  : Outcome Task :=
  if negb (truthy taskData) || negb (String.eqb (typeof taskData) "object") then
    Throws "Invalid task data"
  else
    let sanitizedTask :=
      {| id := if validateTaskId (get taskData "id") then number_of (get taskData "id")
               else now;
         text := sanitizeTaskText (or_else (get taskData "text") (JStr []));
         completed := if validateCompletionStatus (get taskData "completed")
                      then boolean_of (get taskData "completed") else false;
         other := [("createdAt", or_else (get taskData "createdAt") (JStr stamp))] |} in
    match validateTaskObject sanitizedTask with
    | Invalid msg => Throws ("Task validation failed: " ++ msg)
    | Valid _ => Returns sanitizedTask
    end.

(** ** Strings: trimming and the regular expressions *)

Lemma trimStart_idem (s : jsstring) : trimStart (trimStart s) = trimStart s.
Proof.
  induction s as [|c r IH]; simpl; [done|].
  destruct (is_whitespace c) eqn:E; [done|]. simpl. by rewrite E.
Qed.

Lemma trimEnd_keep (c : N) (r : jsstring) :
  is_whitespace c = false -> trimEnd (c :: r) = c :: trimEnd r.
Proof. intros E. simpl. rewrite E. by destruct (trimEnd r). Qed.

Lemma trimEnd_idem (s : jsstring) : trimEnd (trimEnd s) = trimEnd s.
Proof.
  induction s as [|c r IH]; [done|].
  cbn [trimEnd]. destruct (trimEnd r) as [|x r'] eqn:E.
  - destruct (is_whitespace c) eqn:Ec; [done|]. simpl. by rewrite Ec.
  - change (trimEnd (c :: x :: r')) with
      (match trimEnd (x :: r') with
       | [] => if is_whitespace c then [] else [c]
       | r'' => c :: r''
       end).
    by rewrite IH.
Qed.

Lemma trimStart_trimEnd (s : jsstring) : trimStart (trimEnd s) = trimEnd (trimStart s).
Proof.
  induction s as [|c r IH]; [done|].
  destruct (is_whitespace c) eqn:Ec.
  - cbn [trimStart trimEnd]. rewrite Ec, <- IH.
    destruct (trimEnd r) as [|x r']; [done|].
    cbn [trimStart]. by rewrite Ec.
  - rewrite (trimEnd_keep _ _ Ec). cbn [trimStart]. rewrite Ec.
    by rewrite (trimEnd_keep _ _ Ec).
Qed.

Lemma trim_idem (s : jsstring) : trim (trim s) = trim s.
Proof.
  unfold trim.
  by rewrite (trimStart_trimEnd (trimStart s)), trimStart_idem, trimEnd_idem.
Qed.

Lemma line_terminator_whitespace (c : N) :
  is_line_terminator c = true -> is_whitespace c = true.
Proof.
  unfold is_line_terminator, is_whitespace. simpl. intros H.
  repeat (apply orb_prop in H as [H|H]); try discriminate;
    apply N.eqb_eq in H; subst c; reflexivity.
Qed.

Lemma match_whitespace3_run (s : jsstring) :
  match_whitespace3 s = (3 <=? prefix_run is_whitespace s)%nat.
Proof.
  destruct s as [|a [|b [|c r]]]; simpl;
    repeat (destruct (is_whitespace _); simpl); done.
Qed.

Lemma leb_max (n a b : nat) : (n <=? Nat.max a b)%nat = ((n <=? a)%nat || (n <=? b)%nat).
Proof.
  destruct (n <=? a)%nat eqn:Ea, (n <=? b)%nat eqn:Eb; simpl;
    [apply Nat.leb_le | apply Nat.leb_le | apply Nat.leb_le | apply Nat.leb_gt];
    apply Nat.leb_le in Ea || apply Nat.leb_gt in Ea;
    apply Nat.leb_le in Eb || apply Nat.leb_gt in Eb; lia.
Qed.

Lemma search_whitespace3 (s : jsstring) :
  search match_whitespace3 s = (3 <=? longest_run is_whitespace s)%nat.
Proof.
  induction s as [|c r IH]; [done|].
  cbn [search longest_run]. by rewrite leb_max, IH, match_whitespace3_run.
Qed.

Lemma startsWith_repeat4 (c : N) (r : jsstring) :
  startsWith r [c; c; c; c] = (4 <=? prefix_run (N.eqb c) r)%nat.
Proof.
  destruct r as [|x1 [|x2 [|x3 [|x4 r]]]]; simpl;
    repeat (destruct (N.eqb c _); simpl); try done.
  by destruct r.
Qed.

Lemma repeat_run_whitespace (c : N) (r : jsstring) :
  is_whitespace c = true -> (2 <= prefix_run (N.eqb c) r)%nat ->
  match_whitespace3 (c :: r) = true.
Proof.
  intros Hc Hrun. destruct r as [|x1 [|x2 r]]; simpl in Hrun; try lia.
  - destruct (N.eqb c x1); simpl in Hrun; lia.
  - destruct (N.eqb_spec c x1) as [<-|]; [|simpl in Hrun; lia].
    destruct (N.eqb_spec c x2) as [<-|]; [|simpl in Hrun; lia].
    simpl. by rewrite Hc.
Qed.

(** Once [\s{3,}] has found nothing, [(.)\1{4,}] finds exactly the runs of
    five equal characters: a run of line terminators, which [.] refuses,
    is a run of whitespace. *)
Lemma search_repeat5 (s : jsstring) :
  search match_whitespace3 s = false ->
  search match_repeat5 s = (5 <=? longest_repeat s)%nat.
Proof.
  induction s as [|c r IH]; [done|].
  cbn [search longest_repeat]. intros H.
  apply orb_false_elim in H as [Hhere Hrest].
  rewrite leb_max, (IH Hrest). f_equal.
  cbn [match_repeat5]. rewrite startsWith_repeat4.
  change (5 <=? S (prefix_run (N.eqb c) r))%nat with (4 <=? prefix_run (N.eqb c) r)%nat.
  destruct (is_line_terminator c) eqn:Elt; [|done].
  cbn [negb andb]. symmetry. apply Nat.leb_gt.
  destruct (Nat.lt_ge_cases (prefix_run (N.eqb c) r) 4) as [|Hge]; [done|].
  rewrite (repeat_run_whitespace c r) in Hhere; [done| |lia].
  by apply line_terminator_whitespace.
Qed.

Lemma includes_infix (s w : jsstring) :
  includes s w = true <-> exists before after, s = before ++ w ++ after.
Proof.
  assert (Hstart : forall w s, startsWith s w = true <-> exists after, s = w ++ after).
  { clear. induction w as [|a w IH]; intros s.
    - destruct s; simpl; split; eauto.
    - destruct s as [|c s]; simpl.
      + split; [done|]. intros [? ?]; discriminate.
      + rewrite andb_true_iff, IH, N.eqb_eq. split.
        * intros [-> [after ->]]. eauto.
        * intros [after [= -> ->]]. eauto. }
  induction s as [|c r IH].
  - cbn [includes]. rewrite orb_false_r, Hstart. split.
    + intros [after H]. exists [], after. done.
    + intros [before [after H]]. destruct before; [eauto|discriminate].
  - cbn [includes]. rewrite orb_true_iff, Hstart, IH. split.
    + intros [[after H]|[before [after H]]].
      * exists [], after. done.
      * exists (c :: before), after. by rewrite H.
    + intros [[|c' before] [after H]].
      * left. eauto.
      * right. injection H as -> ->. eauto.
Qed.

(** ** The validator *)

Lemma validateTaskText_string (c : N) (r : jsstring) :
  validateTaskText (JStr (c :: r)) = check_trimmed (trim (c :: r)).
Proof. reflexivity. Qed.

Lemma validateTaskText_not_string (v : JsVal) :
  nonempty_string v = false -> validateTaskText v = Invalid Reason.required.
Proof.
  destruct v as [| |b|n|[|c r]|items|props]; intros H;
    try discriminate H; try reflexivity; unfold validateTaskText;
    match goal with
    | |- context [negb (String.eqb ?a ?b)] =>
        let r := eval vm_compute in (negb (String.eqb a b)) in
        change (negb (String.eqb a b)) with r
    end;
    by rewrite orb_true_r.
Qed.

Lemma check_trimmed_cleaned (t cleaned : jsstring) :
  check_trimmed t = Valid cleaned -> cleaned = t /\ t <> [].
Proof.
  unfold check_trimmed. intros H.
  destruct (length t <? VALIDATION_RULES.MIN_LENGTH)%nat eqn:E1; [done|].
  repeat (match type of H with (if ?b then _ else _) = _ => destruct b; [done|] end).
  injection H as <-. split; [done|]. intros ->. done.
Qed.

(** A text that passes is returned trimmed, and the trimmed text passes
    again. *)
Lemma validateTaskText_cleaned (s cleaned : jsstring) :
  validateTaskText (JStr s) = Valid cleaned ->
  cleaned = trim s /\ validateTaskText (JStr cleaned) = Valid cleaned.
Proof.
  destruct s as [|c r]; [done|].
  rewrite validateTaskText_string. intros H.
  destruct (check_trimmed_cleaned _ _ H) as [-> Hne]. split; [done|].
  pose proof (trim_idem (c :: r)) as Hidem.
  destruct (trim (c :: r)) as [|c' r'] eqn:E; [done|].
  by rewrite validateTaskText_string, Hidem.
Qed.

Lemma check_trimmed_rules (t : jsstring) :
  check_trimmed t =
  match first_failure text_rules t with
  | Some reason => Invalid reason
  | None => Valid t
  end.
Proof.
  unfold check_trimmed, text_rules, first_failure, fails_when.
  unfold VALIDATION_RULES.MIN_LENGTH, VALIDATION_RULES.MAX_LENGTH.
  destruct (length t <? 1)%nat eqn:E1; [done|].
  destruct (200 <? length t)%nat; [done|].
  replace (ALLOWED_CHARS_test t) with (forallb allowed_char t)
    by (destruct t; [discriminate E1|done]).
  destruct (forallb allowed_char t); cbn [negb]; [|done].
  change (fun word => includes (toLowerCase t) word) with (includes (toLowerCase t)).
  destruct (existsb (includes (toLowerCase t)) _); [done|].
  rewrite search_whitespace3.
  destruct (3 <=? longest_run is_whitespace t)%nat eqn:E5; [done|].
  rewrite search_repeat5 by (by rewrite search_whitespace3).
  by destruct (5 <=? longest_repeat t)%nat.
Qed.


(** C6 (amended): the validator is the rule list of the specification with
    the first failure winning, rule 1 being "the input is a non-empty
    string": required, then too short or too long on the trimmed length,
    invalid characters, forbidden content, excessive whitespace, repetitive
    characters; a text that passes every rule is returned trimmed. *)
Theorem validateTaskText_rules (input : JsVal) :
  validateTaskText input = validate_by_rules nonempty_string input.
Proof.
  unfold validate_by_rules. destruct (nonempty_string input) eqn:E.
  - destruct input as [| | | |[|c r]| |]; try discriminate E.
    cbn [negb string_of]. rewrite validateTaskText_string.
    apply check_trimmed_rules.
  - by apply validateTaskText_not_string.
Qed.

(** ** Lists: findIndex and filter *)

Lemma findIndex_None {A : Type} (p : A -> bool) (l : list A) :
  findIndex p l = None <-> Forall (fun x => p x = false) l.
Proof.
  induction l as [|x r IH]; simpl.
  - split; [constructor|done].
  - destruct (p x) eqn:E.
    + split; [done|]. intros H. inversion H; congruence.
    + destruct (findIndex p r); simpl.
      * split; [done|]. intros H. inversion H; subst.
        by apply IH in H3.
      * split; [|done]. intros _. constructor; [done|]. by apply IH.
Qed.

Lemma findIndex_Some {A : Type} (p : A -> bool) (l : list A) (i : nat) :
  findIndex p l = Some i ->
  exists x, l !! i = Some x /\ p x = true
            /\ forall j y, (j < i)%nat -> l !! j = Some y -> p y = false.
Proof.
  revert i. induction l as [|x r IH]; intros i; simpl; [done|].
  destruct (p x) eqn:E.
  - intros [= <-]. exists x. repeat split; [done|]. intros; lia.
  - destruct (findIndex p r) as [i'|]; [|done]. intros [= <-].
    destruct (IH i' eq_refl) as (y & Hy & Hp & Hbefore).
    exists y. repeat split; [done..|].
    intros [|j] z Hj Hz; simpl in Hz; [congruence|].
    apply (Hbefore j); [lia|done].
Qed.

Lemma findIndex_Exists {A : Type} (p : A -> bool) (l : list A) :
  Exists (fun x => p x = true) l -> exists i, findIndex p l = Some i.
Proof.
  intros H. destruct (findIndex p l) as [i|] eqn:E; [eauto|].
  apply findIndex_None in E. induction H as [x r Hx|x r _ IH].
  - inversion E; congruence.
  - inversion E; auto.
Qed.

Lemma findIndex_alter {A : Type} (p : A -> bool) (f : A -> A) (l : list A) (i : nat) :
  (forall x, p (f x) = p x) -> findIndex p (alter f i l) = findIndex p l.
Proof.
  intros Hf. revert i. induction l as [|x r IH]; intros [|i]; simpl; try done.
  - by rewrite Hf.
  - destruct (p x); [done|]. f_equal. apply IH.
Qed.

Lemma filter_sublist {A : Type} (p : A -> bool) (l : list A) :
  sublist (List.filter p l) l.
Proof.
  induction l as [|x r IH]; simpl; [constructor|].
  destruct (p x); by constructor.
Qed.

Lemma filter_Forall {A : Type} (P : A -> Prop) (p : A -> bool) (l : list A) :
  Forall P l -> Forall P (List.filter p l).
Proof.
  induction 1 as [|x r Hx _ IH]; simpl; [constructor|].
  destruct (p x); [by constructor|exact IH].
Qed.

Lemma filter_nonempty {A : Type} (p : A -> bool) (l : list A) :
  Exists (fun x => p x = true) l -> (0 <? length (List.filter p l))%nat = true.
Proof.
  induction 1 as [x r Hx|x r _ IH]; simpl.
  - by rewrite Hx.
  - destruct (p x); [done|]. exact IH.
Qed.

Lemma num_strict_eq_eq (a b : JsNumber) : num_strict_eq a b = true -> a = b.
Proof.
  destruct a as [|s|x], b as [|t|y]; simpl; try done.
  - intros H. by apply eqb_prop in H as ->.
  - intros H. by apply Z.eqb_eq in H as ->.
Qed.

(** ** The store *)

Lemma addTask_true (rawText : JsVal) (env : AddEnv) (w w' : World) (shown : Shown) :
  addTask rawText env w = (w', true, shown) ->
  exists cleaned task,
    validateTaskText rawText = Valid cleaned
    /\ hasDuplicates (checkForDuplicates cleaned (tasks w)) = false
    /\ validateTaskObject (createTask cleaned env) = Valid task
    /\ w' = App_saveTasks (add_save env) (set_tasks (task :: tasks w) w).
Proof.
  unfold addTask. destruct (validateTaskText rawText) as [msg|cleaned]; [done|].
  destruct (hasDuplicates _) eqn:Hdup; [done|].
  destruct (validateTaskObject _) as [msg|task] eqn:Hobj; [done|].
  intros [= <- <-]. eauto 10.
Qed.

Lemma validateTaskObject_valid (task task' : Task) :
  validateTaskObject task = Valid task' ->
  validateTaskText (JStr (text task)) = Valid (text task')
  /\ id task' = id task /\ completed task' = completed task
  /\ other task' = other task.
Proof.
  unfold validateTaskObject.
  destruct (num_le_zero _); [done|]. destruct (_ =? 0)%nat; [done|].
  destruct (validateTaskText _) as [msg|cleaned]; [done|].
  by intros [= <-].
Qed.

(** C10: under every filter other than 'active' and 'completed' ('all',
    undefined, any other value) filterTasks returns the collection it was
    given, the same tasks in the same order. *)
Theorem filterTasks_default (ts : list Task) (filter : JsVal) :
  filter <> JStr (js "active") -> filter <> JStr (js "completed") ->
  filterTasks ts filter = ts.
Proof.
  intros Hactive Hcompleted. destruct filter as [| | | |s| |]; try done.
  unfold filterTasks, jsstring_eqb. repeat case_bool_decide; congruence.
Qed.

Lemma validateTaskText_valid_string (rawText : JsVal) (cleaned : jsstring) :
  validateTaskText rawText = Valid cleaned ->
  rawText = JStr (string_of rawText)
  /\ cleaned = trim (string_of rawText)
  /\ validateTaskText (JStr cleaned) = Valid cleaned.
Proof.
  intros H. destruct (nonempty_string rawText) eqn:Hstring.
  - destruct rawText as [| | | |s| |]; try discriminate Hstring.
    split; [done|]. by apply validateTaskText_cleaned.
  - rewrite (validateTaskText_not_string _ Hstring) in H. discriminate H.
Qed.

Lemma addTask_new_task (rawText : JsVal) (env : AddEnv) (w w' : World) (shown : Shown) :
  addTask rawText env w = (w', true, shown) ->
  exists cleaned,
    rawText = JStr (string_of rawText)
    /\ validateTaskText rawText = Valid cleaned
    /\ cleaned = trim (string_of rawText)
    /\ tasks w'
       = {| id := new_id env; text := cleaned; completed := false;
            other := [("createdAt", JStr (new_createdAt env))] |} :: tasks w.
Proof.
  intros H. apply addTask_true in H as (cleaned & task & Hvalid & _ & Hobj & ->).
  destruct (validateTaskText_valid_string _ _ Hvalid) as (Hstring & Hcleaned & Hagain).
  exists cleaned. repeat (split; [done|]).
  apply validateTaskObject_valid in Hobj as (Htext & Hid & Hcompleted & Hother).
  cbn [createTask id text completed other] in *.
  destruct (validateTaskText_cleaned _ _ Hagain) as [Htrim _].
  rewrite <- Htrim, Hagain in Htext. injection Htext as Htext.
  cbn [App_saveTasks set_tasks tasks]. f_equal.
  destruct task as [i t c o]. cbn [id text completed other] in *. by subst.
Qed.

(** C8: a successful addTask puts the new task at the head of the
    collection and keeps the tasks that were there, in their order, behind
    it. The raw text is then a string, and the new task is the one made
    from the call: its text is the raw text trimmed, which passes
    validateTaskText, its id and createdAt are the ones generated for the
    call, and it is not completed. Every view of filterTasks is a
    subsequence of the collection, the 'all' view is the collection itself,
    and the new task heads the 'active' view and is absent from the
    'completed' one. *)
Theorem addTask_prepends (rawText : JsVal) (env : AddEnv) (w w' : World) (shown : Shown) :
  addTask rawText env w = (w', true, shown) ->
  (exists cleaned task,
      rawText = JStr (string_of rawText)
      /\ cleaned = trim (string_of rawText)
      /\ validateTaskText rawText = Valid cleaned
      /\ task = {| id := new_id env; text := cleaned; completed := false;
                   other := [("createdAt", JStr (new_createdAt env))] |}
      /\ tasks w' = task :: tasks w
      /\ filterTasks (tasks w') (JStr (js "all")) = task :: tasks w
      /\ filterTasks (tasks w') (JStr (js "active"))
         = task :: filterTasks (tasks w) (JStr (js "active"))
      /\ filterTasks (tasks w') (JStr (js "completed"))
         = filterTasks (tasks w) (JStr (js "completed")))
  /\ forall (ts : list Task) (filter : JsVal), sublist (filterTasks ts filter) ts.
Proof.
  intros H. split.
  - apply addTask_new_task in H as (cleaned & Hstring & Hvalid & Hcleaned & Htasks).
    exists cleaned. eexists. rewrite Htasks.
    split; [done|]. split; [done|]. split; [done|]. repeat split.
  - intros ts filter. destruct filter as [| | | |s| |]; try reflexivity.
    unfold filterTasks.
    repeat (match goal with |- context [if ?b then _ else _] => destruct b end);
      try reflexivity; apply filter_sublist.
Qed.



(** *** saveTasks *)

Lemma saveTasks_returns (env : SaveEnv) (ts : list Task) (slot : Stored) :
  snd (saveTasks env ts slot) = write_succeeds env.
Proof.
  unfold saveTasks, write_succeeds.
  destruct (first_write env); [done| |done]. by destruct (retry_write env).
Qed.

Lemma saveTasks_written (env : SaveEnv) (ts : list Task) (slot : Stored) :
  write_succeeds env = true ->
  exists now, fst (saveTasks env ts slot) = setItem_stringify (dataToStore now ts).
Proof.
  unfold saveTasks, write_succeeds.
  destruct (first_write env); [eauto| |done].
  destruct (retry_write env); [eauto|done..].
Qed.

Lemma saveTasks_slot (env : SaveEnv) (ts : list Task) (slot : Stored) :
  fst (saveTasks env ts slot) = slot
  \/ fst (saveTasks env ts slot) = Absent
  \/ exists now, fst (saveTasks env ts slot) = setItem_stringify (dataToStore now ts).
Proof.
  unfold saveTasks.
  destruct (first_write env); [eauto| |eauto].
  destruct (retry_write env); eauto.
Qed.

Lemma App_saveTasks_persisted (env : SaveEnv) (w : World) :
  write_succeeds env = true -> persisted (App_saveTasks env w).
Proof.
  intros H. destruct (saveTasks_written env (tasks w) (localStorage w) H) as [now Hnow].
  by exists now.
Qed.

(** *** removeTask *)

Lemma delete_first_match (taskId : JsNumber) (ts : list Task) (index : nat) :
  NoDup (map id ts) ->
  findIndex (fun task => num_strict_eq (id task) taskId) ts = Some index ->
  lacks_id taskId (delete index ts).
Proof.
  unfold lacks_id. revert index.
  induction ts as [|x r IH]; intros index Hnodup; simpl; [done|].
  inversion Hnodup as [|? ? Hnotin Hrest]; subst.
  destruct (num_strict_eq (id x) taskId) eqn:E.
  - intros [= <-]. simpl. apply Forall_forall. intros y Hy.
    destruct (num_strict_eq (id y) taskId) eqn:Ey; [|done].
    apply num_strict_eq_eq in E, Ey. exfalso. apply Hnotin.
    rewrite E, <- Ey. apply list_elem_of_In, in_map. by apply list_elem_of_In.
  - destruct (findIndex _ r) as [i'|] eqn:Hfind; [|done].
    intros [= <-]. simpl. constructor; [done|]. by apply IH.
Qed.

(** C1 (amended): when no task has the id, removeTask changes nothing,
    neither the collection nor the slot; when some task has the id, the
    first such task, and no other, is spliced out, so the length decreases
    by exactly 1, and no task with the id remains when the ids of the
    collection are pairwise distinct; on both paths the call has the value
    undefined, so a missing id is not reported. *)
Theorem removeTask_spec (taskId : JsNumber) (env : SaveEnv) (w : World) :
  (lacks_id taskId (tasks w) -> removeTask taskId env w = w)
  /\ (has_id taskId (tasks w) ->
      (exists index task,
          tasks w !! index = Some task
          /\ num_strict_eq (id task) taskId = true
          /\ (forall j earlier,
                (j < index)%nat -> tasks w !! j = Some earlier ->
                num_strict_eq (id earlier) taskId = false)
          /\ tasks (removeTask taskId env w) = delete index (tasks w))
      /\ S (length (tasks (removeTask taskId env w))) = length (tasks w)
      /\ (NoDup (map id (tasks w)) ->
          lacks_id taskId (tasks (removeTask taskId env w))))
  /\ removeTask_value taskId w = JUndefined.
Proof.
  unfold removeTask, removeTask_value. split; [|split].
  - intros H. apply findIndex_None in H. by rewrite H.
  - intros H. apply findIndex_Exists in H as [index Hindex].
    rewrite Hindex. cbn [App_saveTasks set_tasks tasks].
    destruct (findIndex_Some _ _ _ Hindex) as (task & Htask & Hid & Hfirst).
    split; [eauto 10|]. split.
    + rewrite length_delete by eauto.
      apply lookup_lt_Some in Htask. lia.
    + intros Hnodup. by apply delete_first_match.
  - by destruct (findIndex _ _).
Qed.

(** *** toggleTaskCompletion *)

Lemma flip_completed_twice (task : Task) : flip_completed (flip_completed task) = task.
Proof. destruct task as [i t c o]. unfold flip_completed. simpl. by rewrite negb_involutive. Qed.

Lemma toggle_tasks (taskId : JsNumber) (env : SaveEnv) (w : World) (index : nat) :
  findIndex (fun task => num_strict_eq (id task) taskId) (tasks w) = Some index ->
  toggleTaskCompletion taskId env w
  = App_saveTasks env (set_tasks (alter flip_completed index (tasks w)) w).
Proof. unfold toggleTaskCompletion. by intros ->. Qed.

(** C9: when some task has the id, toggleTaskCompletion keeps the length of
    the collection and, at every position, the id, the text and the other
    properties (createdAt among them) of the task; a task with another id is
    unchanged in all fields; the first task with the id has its completed
    field negated and every other position is untouched. *)
Theorem toggleTaskCompletion_frame (taskId : JsNumber) (env : SaveEnv) (w : World) :
  has_id taskId (tasks w) ->
  length (tasks (toggleTaskCompletion taskId env w)) = length (tasks w)
  /\ (forall j task,
        tasks w !! j = Some task ->
        exists task',
          tasks (toggleTaskCompletion taskId env w) !! j = Some task'
          /\ id task' = id task /\ text task' = text task
          /\ other task' = other task /\ createdAt task' = createdAt task)
  /\ (forall j task,
        tasks w !! j = Some task ->
        num_strict_eq (id task) taskId = false ->
        tasks (toggleTaskCompletion taskId env w) !! j = Some task)
  /\ (exists index task,
        tasks w !! index = Some task
        /\ num_strict_eq (id task) taskId = true
        /\ tasks (toggleTaskCompletion taskId env w) !! index
           = Some (flip_completed task)
        /\ forall j, j <> index ->
             tasks (toggleTaskCompletion taskId env w) !! j = tasks w !! j).
Proof.
  intros H. apply findIndex_Exists in H as [index Hindex].
  rewrite (toggle_tasks _ _ _ _ Hindex). cbn [App_saveTasks set_tasks tasks].
  destruct (findIndex_Some _ _ _ Hindex) as (found & Hfound & Hid & _).
  split; [apply length_alter|]. split; [|split].
  - intros j task Hj. destruct (decide (index = j)) as [<-|Hne].
    + rewrite list_lookup_alter_eq, Hj. simpl. eauto 10.
    + rewrite list_lookup_alter_ne by done. eauto 10.
  - intros j task Hj Hother. rewrite list_lookup_alter_ne; [done|].
    intros <-. congruence.
  - exists index, found. repeat split; [done..| |].
    + by rewrite list_lookup_alter_eq, Hfound.
    + intros j Hj. by rewrite list_lookup_alter_ne.
Qed.

(** *** loadTasks *)

Lemma task_shaped_fields (entry : JsVal) : task_shaped entry = has_task_fields entry.
Proof.
  unfold task_shaped, has_task_fields.
  destruct entry as [| |[]|[| |x]|s|items|props]; try reflexivity.
  - simpl. by rewrite !andb_false_r.
  - simpl. by rewrite !andb_false_r.
  - cbn [get truthy typeof].
    destruct (lookup_prop "id" props), (lookup_prop "text" props),
      (lookup_prop "completed" props); reflexivity.
Qed.

Lemma lookup_prop_other (k : string) (props : list (string * JsVal)) :
  shape_key k = false ->
  lookup_prop k (List.filter (fun kv => negb (shape_key (fst kv))) props)
  = lookup_prop k props.
Proof.
  intros Hk. induction props as [|[k' v] r IH]; [done|].
  cbn [List.filter lookup_prop fst]. destruct (shape_key k') eqn:E; cbn [negb].
  - destruct (String.eqb_spec k k') as [->|_]; [congruence|done].
  - cbn [lookup_prop]. by rewrite IH.
Qed.

Lemma task_of_object_fields (entry : JsVal) :
  has_task_fields entry = true -> same_fields entry (task_of_object entry).
Proof.
  unfold has_task_fields, same_fields, task_of_object.
  destruct entry as [| | | | | |props]; try discriminate. cbn [get].
  destruct (lookup_prop "id" props) eqn:Eid; try discriminate.
  destruct (lookup_prop "text" props) eqn:Etext; try discriminate.
  destruct (lookup_prop "completed" props) eqn:Ecompleted; try discriminate.
  intros _. repeat split. intros k Hk. by apply lookup_prop_other.
Qed.

Lemma loadTasks_array (parsedData : JsVal) (entries : list JsVal) :
  get parsedData "tasks" = JArr entries ->
  loadTasks (Parses parsedData)
  = (map task_of_object (List.filter task_shaped entries), Parses parsedData).
Proof.
  intros H. destruct parsedData as [| | | | | |props]; try discriminate H.
  unfold loadTasks. by rewrite H.
Qed.

Lemma loadTasks_not_array (parsedData : JsVal) :
  isArray (get parsedData "tasks") = false ->
  loadTasks (Parses parsedData) = ([], Parses parsedData).
Proof.
  intros H. unfold loadTasks. rewrite H. cbn [negb].
  rewrite orb_true_r. by destruct (_ || _).
Qed.

Lemma loadTasks_slot (slot : Stored) :
  snd (loadTasks slot) = slot \/ snd (loadTasks slot) = Absent.
Proof.
  destruct slot as [| | |parsedData]; simpl; auto.
  repeat (match goal with |- context [if ?b then _ else _] => destruct b end); auto.
Qed.

(** C4: on a payload that JSON.parse rejects loadTasks returns the empty
    array, without throwing, and removes the slot; on a parsed payload whose
    tasks field is missing or is not an array it returns the empty array and
    leaves the slot as it is; otherwise it leaves the slot as it is and
    returns, in their order, exactly the entries that have a number id, a
    string text and a boolean completed, each with its fields. *)
Theorem loadTasks_spec :
  loadTasks Corrupt = ([], Absent)
  /\ (forall parsedData,
        isArray (get parsedData "tasks") = false ->
        loadTasks (Parses parsedData) = ([], Parses parsedData))
  /\ (forall parsedData entries,
        get parsedData "tasks" = JArr entries ->
        snd (loadTasks (Parses parsedData)) = Parses parsedData
        /\ Forall2 same_fields (List.filter has_task_fields entries)
             (fst (loadTasks (Parses parsedData)))).
Proof.
  split; [done|]. split; [apply loadTasks_not_array|].
  intros parsedData entries H. rewrite (loadTasks_array _ _ H).
  split; [done|]. cbn [fst].
  rewrite (List.filter_ext _ _ task_shaped_fields). clear H.
  induction entries as [|entry rest IH]; cbn [List.filter map]; [constructor|].
  destruct (has_task_fields entry) eqn:E; [|exact IH].
  cbn [map]. constructor; [by apply task_of_object_fields|exact IH].
Qed.

(** *** Saving, then loading *)

Lemma load_saved (now : JsNumber) (ts : list Task) :
  fst (loadTasks (setItem_stringify (dataToStore now ts)))
  = map task_of_object
      (List.filter task_shaped (map stringify_parse (map object_of_task ts))).
Proof.
  unfold setItem_stringify.
  by rewrite (loadTasks_array _ (map stringify_parse (map object_of_task ts))).
Qed.

Lemma text_read_back (task : Task) :
  text (task_of_object (stringify_parse (object_of_task task))) = text task.
Proof. reflexivity. Qed.

Lemma object_of_task_json (task : Task) :
  serialisable task -> stringify_parse (object_of_task task) = object_of_task task.
Proof.
  intros (Hid & Hother & _). unfold object_of_task.
  cbn [stringify_parse props_json]. by rewrite Hid, Hother.
Qed.

Lemma task_of_object_of_task (task : Task) :
  Forall (fun kv => shape_key (fst kv) = false) (other task) ->
  task_of_object (object_of_task task) = task.
Proof.
  destruct task as [i t c o]. cbn [other]. intros H.
  unfold task_of_object, object_of_task. cbn. f_equal.
  induction H as [|kv r Hkv _ IH]; [done|].
  cbn [List.filter]. by rewrite Hkv, IH.
Qed.

Lemma serialisable_read_back (ts : list Task) :
  Forall serialisable ts ->
  map task_of_object
    (List.filter task_shaped (map stringify_parse (map object_of_task ts))) = ts.
Proof.
  induction 1 as [|task rest Htask _ IH]; [done|].
  cbn [map]. rewrite (object_of_task_json _ Htask).
  cbn [List.filter].
  replace (task_shaped (object_of_task task)) with true by reflexivity.
  cbn [map]. rewrite IH. f_equal.
  apply task_of_object_of_task. apply Htask.
Qed.

Lemma four_fields_serialisable (task : Task) :
  is_finite (id task) = true -> four_fields task -> serialisable task.
Proof.
  intros Hid [stamp Hother]. unfold serialisable. rewrite Hother.
  repeat split; [done|]. by constructor.
Qed.

(** C5 (amended): for a collection of tasks that have a finite number as
    id, a string text, a boolean completed and a string createdAt, when
    saveTasks reports success a loadTasks that follows returns the
    collection that was saved, in the same order and with all fields. *)
Theorem load_after_save (env : SaveEnv) (ts : list Task) (slot : Stored) :
  Forall (fun task => is_finite (id task) = true /\ four_fields task) ts ->
  snd (saveTasks env ts slot) = true ->
  fst (loadTasks (fst (saveTasks env ts slot))) = ts.
Proof.
  intros Hts Hsaved. rewrite saveTasks_returns in Hsaved.
  destruct (saveTasks_written env ts slot Hsaved) as [now ->].
  rewrite load_saved. apply serialisable_read_back.
  eapply Forall_impl; [exact Hts|].
  intros task [Hid Hfour]. by apply four_fields_serialisable.
Qed.


(** *** toggleTaskCompletion and the slot *)

Lemma persisted_read_back (w : World) :
  persisted w -> Forall serialisable (tasks w) ->
  fst (loadTasks (localStorage w)) = tasks w.
Proof.
  intros [now Hslot] Hts. rewrite Hslot, load_saved.
  by apply serialisable_read_back.
Qed.

Lemma serialisable_toggled (ts : list Task) (index : nat) :
  Forall serialisable ts -> Forall serialisable (alter flip_completed index ts).
Proof. intros Hts. apply Forall_alter; [done|]. by intros task _ Htask. Qed.

(** C7 (amended): when some task has the id, two calls of
    toggleTaskCompletion give back the collection as it was, every task with
    its original completed value; after each call whose write succeeds the
    slot holds the serialisation of the collection in memory, and, when
    every task is one that JSON writes and reads back unchanged, loadTasks
    reads from the slot exactly the collection in memory. *)
Theorem toggleTaskCompletion_twice (taskId : JsNumber) (env1 env2 : SaveEnv) (w : World) :
  has_id taskId (tasks w) ->
  tasks (toggleTaskCompletion taskId env2 (toggleTaskCompletion taskId env1 w)) = tasks w
  /\ (write_succeeds env1 = true ->
      persisted (toggleTaskCompletion taskId env1 w)
      /\ (Forall serialisable (tasks w) ->
          fst (loadTasks (localStorage (toggleTaskCompletion taskId env1 w)))
          = tasks (toggleTaskCompletion taskId env1 w)))
  /\ (write_succeeds env2 = true ->
      persisted (toggleTaskCompletion taskId env2 (toggleTaskCompletion taskId env1 w))
      /\ (Forall serialisable (tasks w) ->
          fst (loadTasks
                 (localStorage
                    (toggleTaskCompletion taskId env2 (toggleTaskCompletion taskId env1 w))))
          = tasks (toggleTaskCompletion taskId env2 (toggleTaskCompletion taskId env1 w)))).
Proof.
  intros H. apply findIndex_Exists in H as [index Hindex].
  rewrite (toggle_tasks _ env1 _ _ Hindex).
  assert (Hagain :
    findIndex (fun task => num_strict_eq (id task) taskId)
      (tasks (App_saveTasks env1 (set_tasks (alter flip_completed index (tasks w)) w)))
    = Some index).
  { cbn [App_saveTasks set_tasks tasks]. by rewrite findIndex_alter. }
  rewrite (toggle_tasks _ env2 _ _ Hagain).
  split; [|split].
  - cbn [App_saveTasks set_tasks tasks]. rewrite list_alter_alter_eq.
    apply list_alter_id. intros task. apply flip_completed_twice.
  - intros Hwritten.
    pose proof (App_saveTasks_persisted env1
                  (set_tasks (alter flip_completed index (tasks w)) w) Hwritten) as Hsaved.
    split; [exact Hsaved|]. intros Hts. apply persisted_read_back; [exact Hsaved|].
    cbn [App_saveTasks set_tasks tasks]. by apply serialisable_toggled.
  - intros Hwritten.
    match goal with
    | |- persisted ?w2 /\ _ =>
        pose proof (App_saveTasks_persisted env2 _ Hwritten : persisted w2) as Hsaved
    end.
    split; [exact Hsaved|]. intros Hts. apply persisted_read_back; [exact Hsaved|].
    cbn [App_saveTasks set_tasks tasks]. by do 2 apply serialisable_toggled.
Qed.

(** *** The texts at rest *)

Lemma load_saved_texts (now : JsNumber) (ts : list Task) :
  Forall text_ok ts ->
  Forall text_ok (fst (loadTasks (setItem_stringify (dataToStore now ts)))).
Proof.
  rewrite load_saved. induction 1 as [|task rest Htask _ IH]; [constructor|].
  cbn [map List.filter].
  destruct (task_shaped (stringify_parse (object_of_task task))); [|exact IH].
  cbn [map]. constructor; [|exact IH].
  unfold text_ok. by rewrite text_read_back.
Qed.

Lemma App_saveTasks_texts (env : SaveEnv) (ts : list Task) (w : World) :
  Forall text_ok ts ->
  Forall text_ok (fst (loadTasks (localStorage w))) ->
  store_texts_ok (App_saveTasks env (set_tasks ts w)).
Proof.
  intros Hts Hslot. split; [exact Hts|].
  cbn [App_saveTasks set_tasks tasks localStorage].
  destruct (saveTasks_slot env ts (localStorage w)) as [->|[->|[now ->]]].
  - exact Hslot.
  - constructor.
  - by apply load_saved_texts.
Qed.

Lemma addTask_texts (rawText : JsVal) (env : AddEnv) (w : World) :
  tasks (fst (fst (addTask rawText env w))) = tasks w
  \/ exists task,
       tasks (fst (fst (addTask rawText env w))) = task :: tasks w /\ text_ok task.
Proof.
  destruct (addTask rawText env w) as [[w' [|]] shown] eqn:H.
  - right. apply addTask_true in H as (cleaned & task & _ & _ & Hobj & ->).
    apply validateTaskObject_valid in Hobj as (Htext & _).
    exists task. split; [done|].
    apply validateTaskText_cleaned in Htext as [_ Hagain].
    unfold text_ok. by rewrite Hagain.
  - left. revert H. unfold addTask.
    destruct (validateTaskText rawText); [by intros [= <-]|].
    destruct (hasDuplicates _); [by intros [= <-]|].
    destruct (validateTaskObject _); [by intros [= <-]|done].
Qed.

Lemma addTask_slot (rawText : JsVal) (env : AddEnv) (w : World) :
  fst (fst (addTask rawText env w)) = w
  \/ exists task,
       fst (fst (addTask rawText env w))
       = App_saveTasks (add_save env) (set_tasks (task :: tasks w) w)
       /\ text_ok task.
Proof.
  unfold addTask.
  destruct (validateTaskText rawText); [by left|].
  destruct (hasDuplicates _); [by left|].
  destruct (validateTaskObject _) as [msg|task] eqn:Hobj; [by left|].
  right. exists task. split; [done|].
  apply validateTaskObject_valid in Hobj as (Htext & _).
  apply validateTaskText_cleaned in Htext as [_ Hagain].
  unfold text_ok. by rewrite Hagain.
Qed.

Lemma step_texts_ok (w : World) (a : Action) :
  store_texts_ok w -> store_texts_ok (step w a).
Proof.
  intros [Htasks Hslot]. destruct a as [rawText env|taskId env|taskId env|accepted env];
    cbn [step].
  - destruct (addTask_slot rawText env w) as [->|(task & -> & Hok)]; [done|].
    apply App_saveTasks_texts; [by constructor|done].
  - unfold toggleTaskCompletion. destruct (findIndex _ _) as [index|]; [|done].
    apply App_saveTasks_texts; [|done].
    apply Forall_alter; [done|]. by intros task _ Hok.
  - unfold removeTask. destruct (findIndex _ _) as [index|]; [|done].
    apply App_saveTasks_texts; [|done]. by apply Forall_delete.
  - unfold clearCompletedTasks. destruct (_ =? 0)%nat; [done|].
    destruct accepted; [|done]. cbn [fst].
    apply App_saveTasks_texts; [|done].
    by apply filter_Forall.
Qed.

Lemma run_texts_ok (actions : list Action) (w : World) :
  store_texts_ok w -> store_texts_ok (run actions w).
Proof.
  unfold run. revert w. induction actions as [|a rest IH]; intros w Hw; [done|].
  cbn [fold_left]. apply IH. by apply step_texts_ok.
Qed.

(** C2 (amended): addTask either leaves the collection as it is or puts at
    its head a task whose text passes validateTaskText; and when the texts
    that loadTasks returns at initialisation pass validateTaskText, which
    loadTasks itself does not test, then after every sequence of addTask,
    toggleTaskCompletion, removeTask and clearCompletedTasks every text of
    the collection passes it, and so does every text that loadTasks would
    read from the slot. *)
Theorem texts_stay_valid :
  (forall rawText env w,
      tasks (fst (fst (addTask rawText env w))) = tasks w
      \/ exists task,
           tasks (fst (fst (addTask rawText env w))) = task :: tasks w
           /\ text_ok task)
  /\ (forall probe slot actions,
        Forall text_ok (fst (loadTasks slot)) ->
        store_texts_ok (run actions (init probe slot))).
Proof.
  split; [apply addTask_texts|].
  intros probe slot actions Hloaded. apply run_texts_ok. unfold init.
  destruct (negb (isStorageAvailable probe)).
  { split; [constructor|exact Hloaded]. }
  split; [exact Hloaded|]. cbn [localStorage].
  destruct (loadTasks_slot slot) as [->| ->]; [exact Hloaded|constructor].
Qed.

(** ** Further properties of the validator *)

Lemma trimStart_padding (before s : jsstring) :
  Forall (fun c => is_whitespace c = true) before ->
  trimStart (before ++ s) = trimStart s.
Proof. induction 1 as [|c r Hc _ IH]; [done|]. simpl. by rewrite Hc. Qed.

Lemma trimEnd_whitespace (after : jsstring) :
  Forall (fun c => is_whitespace c = true) after -> trimEnd after = [].
Proof. induction 1 as [|c r Hc _ IH]; [done|]. simpl. by rewrite IH, Hc. Qed.

Lemma trimEnd_padding (s after : jsstring) :
  Forall (fun c => is_whitespace c = true) after ->
  trimEnd (s ++ after) = trimEnd s.
Proof.
  intros Hafter. induction s as [|c r IH]; [by apply trimEnd_whitespace|].
  change ((c :: r) ++ after) with (c :: (r ++ after)).
  cbn [trimEnd]. by rewrite IH.
Qed.

Lemma trim_padding (before s after : jsstring) :
  Forall (fun c => is_whitespace c = true) before ->
  Forall (fun c => is_whitespace c = true) after ->
  trim (before ++ s ++ after) = trim s.
Proof.
  intros Hbefore Hafter. unfold trim.
  rewrite (trimStart_padding _ _ Hbefore), <- trimStart_trimEnd.
  by rewrite (trimEnd_padding _ _ Hafter), trimStart_trimEnd.
Qed.

Lemma check_trimmed_bounds (t cleaned : jsstring) :
  check_trimmed t = Valid cleaned ->
  (1 <= length t <= 200)%nat /\ forallb allowed_char t = true.
Proof.
  unfold check_trimmed, VALIDATION_RULES.MIN_LENGTH, VALIDATION_RULES.MAX_LENGTH.
  destruct (length t <? 1)%nat eqn:E1; [done|].
  destruct (200 <? length t)%nat eqn:E2; [done|].
  destruct (ALLOWED_CHARS_test t) eqn:E3; [|done]. intros _.
  apply Nat.ltb_ge in E1, E2. split; [lia|].
  by destruct t.
Qed.

Lemma validateTaskText_accepted_facts (input : JsVal) (cleaned : jsstring) :
  validateTaskText input = Valid cleaned ->
  cleaned = trim (string_of input)
  /\ trim cleaned = cleaned
  /\ (1 <= length cleaned <= 200)%nat
  /\ forallb allowed_char cleaned = true
  /\ validateTaskText (JStr cleaned) = Valid cleaned.
Proof.
  intros H. destruct (nonempty_string input) eqn:E.
  - destruct input as [| | | |[|c r]| |]; try discriminate E.
    destruct (validateTaskText_cleaned _ _ H) as [Hcleaned Hagain].
    rewrite validateTaskText_string in H.
    destruct (check_trimmed_bounds _ _ H) as [Hlength Hallowed].
    subst cleaned. cbn [string_of]. by rewrite trim_idem.
  - rewrite (validateTaskText_not_string _ E) in H. discriminate H.
Qed.

(** X1: a text that validateTaskText accepts is returned trimmed: the result
    is the trimmed input, has no whitespace at either end, has between 1 and
    200 characters, all of them allowed, and is accepted again, unchanged. *)
Theorem validateTaskText_accepted (input : JsVal) (cleaned : jsstring) :
  validateTaskText input = Valid cleaned ->
  cleaned = trim (string_of input)
  /\ trim cleaned = cleaned
  /\ (1 <= length cleaned <= 200)%nat
  /\ forallb allowed_char cleaned = true
  /\ validateTaskText (JStr cleaned) = Valid cleaned.
Proof. apply validateTaskText_accepted_facts. Qed.

(** X2: whitespace around a non-empty text does not change the answer of
    validateTaskText. *)
Theorem validateTaskText_padding (before s after : jsstring) :
  Forall (fun c => is_whitespace c = true) before ->
  Forall (fun c => is_whitespace c = true) after ->
  s <> [] ->
  validateTaskText (JStr (before ++ s ++ after)) = validateTaskText (JStr s).
Proof.
  intros Hbefore Hafter Hs.
  destruct s as [|c r]; [done|].
  destruct (before ++ (c :: r) ++ after) as [|c' r'] eqn:E.
  { by destruct before. }
  by rewrite !validateTaskText_string, <- E, trim_padding.
Qed.

Lemma collapse_whitespace_spaces (s : jsstring) :
  Forall (fun c => is_whitespace c = true -> c = 32%N) (collapse_whitespace s).
Proof.
  induction s as [|c r IH]; [constructor|]. cbn [collapse_whitespace].
  destruct (is_whitespace c) eqn:Ec.
  - destruct r as [|c' r']; [by repeat constructor|].
    destruct (is_whitespace c'); [exact IH|by constructor].
  - constructor; [congruence|exact IH].
Qed.

Lemma collapse_whitespace_head (c : N) (r : jsstring) :
  is_whitespace c = false ->
  collapse_whitespace (c :: r) = c :: collapse_whitespace r.
Proof. intros Ec. cbn [collapse_whitespace]. by rewrite Ec. Qed.

Lemma collapse_whitespace_runs (s : jsstring) :
  (prefix_run is_whitespace (collapse_whitespace s) <= 1)%nat
  /\ (longest_run is_whitespace (collapse_whitespace s) <= 1)%nat.
Proof.
  induction s as [|c r [IHprefix IHlongest]]; [simpl; lia|].
  destruct (is_whitespace c) eqn:Ec.
  - destruct r as [|c' r'].
    + cbn [collapse_whitespace]. rewrite Ec. simpl. lia.
    + destruct (is_whitespace c') eqn:Ec'.
      * cbn [collapse_whitespace] in *. rewrite Ec, Ec'. rewrite Ec' in IHprefix, IHlongest.
        done.
      * assert (Hhere : collapse_whitespace (c :: c' :: r')
                        = 32%N :: collapse_whitespace (c' :: r')).
        { cbn [collapse_whitespace]. by rewrite Ec, Ec'. }
        rewrite Hhere. rewrite (collapse_whitespace_head _ _ Ec') in *.
        cbn [prefix_run longest_run] in *. rewrite Ec' in *. simpl. lia.
  - rewrite (collapse_whitespace_head _ _ Ec).
    cbn [prefix_run longest_run]. rewrite Ec. lia.
Qed.

Lemma prefix_run_take (p : N -> bool) (n : nat) (s : jsstring) :
  (prefix_run p (take n s) <= prefix_run p s)%nat.
Proof.
  revert n. induction s as [|c r IH]; intros [|n]; simpl; try lia.
  destruct (p c); [|lia]. specialize (IH n). lia.
Qed.

Lemma longest_run_take (p : N -> bool) (n : nat) (s : jsstring) :
  (longest_run p (take n s) <= longest_run p s)%nat.
Proof.
  revert n. induction s as [|c r IH]; intros [|n]; [simpl; lia..|].
  change (take (S n) (c :: r)) with (c :: take n r).
  cbn [longest_run].
  pose proof (prefix_run_take p (S n) (c :: r)) as Hprefix.
  change (take (S n) (c :: r)) with (c :: take n r) in Hprefix.
  specialize (IH n). lia.
Qed.

Lemma strip_angle_brackets_none (s : jsstring) :
  Forall (fun c => c <> 60%N /\ c <> 62%N) s -> strip_angle_brackets s = s.
Proof.
  unfold strip_angle_brackets. induction 1 as [|c r [H60 H62] _ IH]; [done|].
  cbn [List.filter].
  destruct (N.eqb_spec c 60); [done|]. destruct (N.eqb_spec c 62); [done|].
  cbn. by rewrite IH.
Qed.

Lemma collapse_whitespace_brackets (s : jsstring) :
  Forall (fun c => c <> 60%N /\ c <> 62%N) s ->
  Forall (fun c => c <> 60%N /\ c <> 62%N) (collapse_whitespace s).
Proof.
  induction 1 as [|c r Hc Hr IH]; [constructor|]. cbn [collapse_whitespace].
  destruct (is_whitespace c).
  - destruct r as [|c' r']; [by repeat constructor|].
    destruct (is_whitespace c'); [exact IH|by constructor].
  - by constructor.
Qed.

Lemma trimStart_Forall (P : N -> Prop) (s : jsstring) :
  Forall P s -> Forall P (trimStart s).
Proof.
  induction 1 as [|c r Hc Hr IH]; [constructor|]. simpl.
  destruct (is_whitespace c); [exact IH|by constructor].
Qed.

Lemma trimEnd_Forall (P : N -> Prop) (s : jsstring) :
  Forall P s -> Forall P (trimEnd s).
Proof.
  induction 1 as [|c r Hc Hr IH]; [constructor|]. cbn [trimEnd].
  destruct (trimEnd r) as [|x r'].
  - destruct (is_whitespace c); by repeat constructor.
  - by constructor.
Qed.

Lemma sanitizeTaskText_guarantees_facts (input : JsVal) :
  (length (sanitizeTaskText input) <= 200)%nat
  /\ Forall (fun c => c <> 60%N /\ c <> 62%N) (sanitizeTaskText input)
  /\ Forall (fun c => is_whitespace c = true -> c = 32%N) (sanitizeTaskText input)
  /\ (nonempty_string input = false -> sanitizeTaskText input = [])
  /\ (Forall (fun c => c <> 60%N /\ c <> 62%N) (string_of input) ->
      (longest_run is_whitespace (sanitizeTaskText input) <= 1)%nat).
Proof.
  destruct (nonempty_string input) eqn:E.
  - destruct input as [| | | |[|c r]| |]; try discriminate E.
    change (sanitizeTaskText (JStr (c :: r)))
      with (take 200 (strip_angle_brackets (collapse_whitespace (trim (c :: r))))).
    split; [rewrite length_take; lia|]. split; [|split; [|split; [done|]]].
    + apply Forall_take. unfold strip_angle_brackets. apply Forall_forall.
      intros x Hx. apply list_elem_of_In, filter_In in Hx as [_ Hx].
      apply negb_true_iff, orb_false_elim in Hx as [H60 H62].
      by apply N.eqb_neq in H60, H62.
    + apply Forall_take. unfold strip_angle_brackets.
      apply filter_Forall, collapse_whitespace_spaces.
    + cbn [string_of]. intros Hclean.
      rewrite strip_angle_brackets_none.
      * etransitivity; [apply longest_run_take|].
        apply collapse_whitespace_runs.
      * apply collapse_whitespace_brackets. unfold trim.
        by apply trimEnd_Forall, trimStart_Forall.
  - assert (Hempty : sanitizeTaskText input = []).
    { destruct input as [| |b|n|[|c r]|items|props]; try discriminate E;
        try reflexivity; unfold sanitizeTaskText;
        match goal with
        | |- context [negb (String.eqb ?a ?b)] =>
            let r := eval vm_compute in (negb (String.eqb a b)) in
            change (negb (String.eqb a b)) with r
        end;
        by rewrite orb_true_r. }
    rewrite Hempty. repeat split; try constructor; simpl; lia.
Qed.

(** X3: sanitizeTaskText returns at most 200 characters, none of them an
    angle bracket, and no whitespace character other than the space; it
    returns the empty string for anything that is not a non-empty string;
    and when the text has no angle bracket, the result has no two
    whitespace characters in a row. *)
Theorem sanitizeTaskText_guarantees (input : JsVal) :
  (length (sanitizeTaskText input) <= 200)%nat
  /\ Forall (fun c => c <> 60%N /\ c <> 62%N) (sanitizeTaskText input)
  /\ Forall (fun c => is_whitespace c = true -> c = 32%N) (sanitizeTaskText input)
  /\ (nonempty_string input = false -> sanitizeTaskText input = [])
  /\ (Forall (fun c => c <> 60%N /\ c <> 62%N) (string_of input) ->
      (longest_run is_whitespace (sanitizeTaskText input) <= 1)%nat).
Proof. apply sanitizeTaskText_guarantees_facts. Qed.

Lemma validateTaskObject_sanitized_facts (task task' : Task) :
  validateTaskObject task = Valid task' ->
  id task' = id task /\ completed task' = completed task /\ other task' = other task
  /\ text task' = trim (text task)
  /\ num_le_zero (id task') = false
  /\ validateTaskObject task' = Valid task'.
Proof.
  intros H.
  destruct (validateTaskObject_valid _ _ H) as (Htext & Hid & Hcompleted & Hother).
  destruct (validateTaskText_accepted_facts _ _ Htext) as (Hcleaned & Htrim & Hlength & _ & Hagain).
  repeat split; try done.
  - revert H. unfold validateTaskObject. rewrite Hid.
    by destruct (num_le_zero (id task)).
  - assert (Hpositive : num_le_zero (id task') = false).
    { revert H. unfold validateTaskObject. rewrite Hid.
      by destruct (num_le_zero (id task)). }
    unfold validateTaskObject. rewrite Hpositive, Htrim, Hagain.
    destruct (length (text task')) eqn:El; [lia|].
    cbn. by destruct task'.
Qed.

(** X4: a task that validateTaskObject accepts is returned with its id, its
    completed flag and its other properties, and with its text trimmed; its
    id is not [<= 0]; and the returned task is accepted again, unchanged. *)
Theorem validateTaskObject_sanitized (task task' : Task) :
  validateTaskObject task = Valid task' ->
  id task' = id task /\ completed task' = completed task /\ other task' = other task
  /\ text task' = trim (text task)
  /\ num_le_zero (id task') = false
  /\ validateTaskObject task' = Valid task'.
Proof. apply validateTaskObject_sanitized_facts. Qed.

(** *** validateTaskObject on any value *)

(** Replaces the comparisons of two literal strings by their values. *)
Ltac eval_eqb :=
  repeat match goal with
    | |- context [String.eqb ?a ?b] =>
        let r := eval vm_compute in (String.eqb a b) in
        match r with
        | true => change (String.eqb a b) with true
        | false => change (String.eqb a b) with false
        end
    end.

Lemma lookup_assign_same (k : string) (v : JsVal) (props : list (string * JsVal)) :
  lookup_prop k (assign_prop k v props) = v.
Proof.
  induction props as [|[k' v'] rest IH]; simpl.
  - by rewrite String.eqb_refl.
  - destruct (String.eqb k k') eqn:E; simpl; by rewrite E.
Qed.

Lemma lookup_assign_other (k k' : string) (v : JsVal) (props : list (string * JsVal)) :
  k' <> k -> lookup_prop k' (assign_prop k v props) = lookup_prop k' props.
Proof.
  intros Hne. induction props as [|[k0 v0] rest IH]; simpl.
  - by destruct (String.eqb_spec k' k).
  - destruct (String.eqb_spec k k0) as [<-|_]; simpl.
    + by destruct (String.eqb_spec k' k).
    + by rewrite IH.
Qed.

Lemma assign_prop_twice (k : string) (v : JsVal) (props : list (string * JsVal)) :
  assign_prop k v (assign_prop k v props) = assign_prop k v props.
Proof.
  induction props as [|[k' v'] rest IH]; simpl.
  - by rewrite String.eqb_refl.
  - destruct (String.eqb k k') eqn:E; simpl; rewrite E; [done|]. by rewrite IH.
Qed.

Lemma validateTaskObject_any_valid (task sanitizedTask : JsVal) :
  validateTaskObject_any task = Valid sanitizedTask ->
  exists props n s b cleaned,
    task = JObj props
    /\ lookup_prop "id" props = JNum n /\ num_le_zero n = false
    /\ lookup_prop "text" props = JStr s
    /\ lookup_prop "completed" props = JBool b
    /\ validateTaskText (JStr s) = Valid cleaned
    /\ sanitizedTask = JObj (assign_prop "text" (JStr cleaned) props).
Proof.
  unfold validateTaskObject_any.
  destruct task as [| |b0|n0|s0|items|props]; cbn [truthy typeof get];
    eval_eqb; cbn [negb orb]; rewrite ?orb_true_r; try done.
  destruct (lookup_prop "id" props) as [| | |n| | |] eqn:Eid;
    cbn [typeof number_of]; eval_eqb; cbn [negb orb]; try done.
  destruct (num_le_zero n) eqn:En; [done|].
  destruct (lookup_prop "text" props) as [| | | |s| |] eqn:Etext;
    cbn [typeof string_of]; eval_eqb; cbn [negb orb]; try done.
  destruct (length (trim s) =? 0)%nat; [done|].
  destruct (lookup_prop "completed" props) as [| |b| | | |] eqn:Ecompleted;
    cbn [typeof]; eval_eqb; cbn [negb]; try done.
  destruct (validateTaskText (JStr s)) as [msg|cleaned] eqn:Hvalid; [done|].
  intros [= <-]. cbn [props_of]. eauto 12.
Qed.

Lemma validateTaskObject_any_again (props : list (string * JsVal)) (n : JsNumber)
    (b : bool) (cleaned : jsstring) :
  lookup_prop "id" props = JNum n -> num_le_zero n = false ->
  lookup_prop "text" props = JStr cleaned ->
  lookup_prop "completed" props = JBool b ->
  validateTaskText (JStr cleaned) = Valid cleaned ->
  validateTaskObject_any (JObj props)
  = Valid (JObj (assign_prop "text" (JStr cleaned) props)).
Proof.
  intros Hid Hn Htext Hcompleted Hvalid.
  destruct (validateTaskText_accepted_facts _ _ Hvalid) as (_ & Htrim & Hlength & _).
  unfold validateTaskObject_any. cbn [truthy typeof get props_of].
  rewrite Hid, Htext, Hcompleted. cbn [typeof number_of string_of].
  eval_eqb. cbn [negb orb]. rewrite Hn, Htrim, Hvalid.
  destruct (length cleaned) eqn:El; [lia|]. done.
Qed.

(** The typed [validateTaskObject] is [validateTaskObject_any] on the
    objects of the tasks. *)
Lemma validateTaskObject_any_task (task : Task) :
  validateTaskObject_any (object_of_task task)
  = match validateTaskObject task with
    | Invalid msg => Invalid msg
    | Valid sanitizedTask => Valid (object_of_task sanitizedTask)
    end.
Proof.
  unfold validateTaskObject_any, validateTaskObject, object_of_task.
  cbn [truthy typeof get props_of lookup_prop].
  eval_eqb. cbn [negb orb typeof number_of string_of].
  eval_eqb. cbn [negb orb].
  destruct (num_le_zero (id task)); [done|].
  destruct (length (trim (text task)) =? 0)%nat; [done|].
  by destruct (validateTaskText (JStr (text task))).
Qed.

Lemma validateTaskObject_any_accepted_facts (task sanitizedTask : JsVal) :
  validateTaskObject_any task = Valid sanitizedTask ->
  task_shaped task = true
  /\ task_shaped sanitizedTask = true
  /\ get sanitizedTask "text" = JStr (trim (string_of (get task "text")))
  /\ (forall k, k <> "text" -> get sanitizedTask k = get task k)
  /\ validateTaskObject_any sanitizedTask = Valid sanitizedTask.
Proof.
  intros H.
  destruct (validateTaskObject_any_valid _ _ H)
    as (props & n & s & b & cleaned & -> & Hid & Hn & Htext & Hcompleted & Hvalid & ->).
  destruct (validateTaskText_accepted_facts _ _ Hvalid) as (Hcleaned & _ & _ & _ & Hagain).
  cbn [string_of] in Hcleaned.
  assert (Hother : forall k, k <> "text" ->
            lookup_prop k (assign_prop "text" (JStr cleaned) props) = lookup_prop k props).
  { intros k Hk. by apply lookup_assign_other. }
  repeat split.
  - rewrite task_shaped_fields. unfold has_task_fields. cbn [get].
    by rewrite Hid, Htext, Hcompleted.
  - rewrite task_shaped_fields. unfold has_task_fields. cbn [get].
    rewrite lookup_assign_same, !Hother by done. by rewrite Hid, Hcompleted.
  - cbn [get]. by rewrite lookup_assign_same, Htext, Hcleaned.
  - exact Hother.
  - rewrite (validateTaskObject_any_again _ n b cleaned).
    + by rewrite assign_prop_twice.
    + by rewrite Hother.
    + done.
    + apply lookup_assign_same.
    + by rewrite Hother.
    + done.
Qed.

(** X5: a value that validateTaskObject accepts passes the shape test of
    loadTasks; the sanitized copy passes it too, has the same value under
    every property name but [text], has the trimmed text, and is accepted
    again, unchanged. *)
Theorem validateTaskObject_any_accepted (task sanitizedTask : JsVal) :
  validateTaskObject_any task = Valid sanitizedTask ->
  task_shaped task = true
  /\ task_shaped sanitizedTask = true
  /\ get sanitizedTask "text" = JStr (trim (string_of (get task "text")))
  /\ (forall k, k <> "text" -> get sanitizedTask k = get task k)
  /\ validateTaskObject_any sanitizedTask = Valid sanitizedTask.
Proof. apply validateTaskObject_any_accepted_facts. Qed.

(** *** validateTaskArray *)





(** *** validateTaskId and sanitizeTaskForStorage *)

(** X7: validateTaskId accepts exactly the numbers that are integers from 1
    to Number.MAX_SAFE_INTEGER. *)
Theorem validateTaskId_integers (taskId : JsVal) :
  validateTaskId taskId = true
  <-> exists n, (1 <= n <= MAX_SAFE_INTEGER)%Z /\ taskId = JNum (num n).
Proof.
  unfold validateTaskId, num, MAX_SAFE_INTEGER, isInteger, num_le_int.
  assert (Hscale : (0 < 2 ^ 1074)%Z) by (apply Z.pow_pos_nonneg; lia).
  generalize dependent (2 ^ 1074)%Z. intros scale Hscale. split.
  - destruct taskId as [| | |[| |x]| | |]; cbn [typeof number_of];
      eval_eqb; cbn [andb]; try done.
    cbn [num_gt_zero]. intros H.
    apply andb_prop in H as [H Hle]. apply andb_prop in H as [Hint Hpos].
    apply Z.eqb_eq in Hint. apply Z.ltb_lt in Hpos. apply Z.leb_le in Hle.
    exists (x / scale)%Z.
    assert (Hx : x = (x / scale * scale)%Z).
    { rewrite Z.mul_comm. apply Z.div_exact; [lia|done]. }
    split; [|by rewrite <- Hx]. nia.
  - intros (n & [Hlow Hhigh] & ->). cbn [typeof number_of num_gt_zero].
    eval_eqb. cbn [andb]. rewrite Z.mod_mul by lia.
    apply andb_true_intro. split; [apply andb_true_intro; split|].
    + done.
    + apply Z.ltb_lt. nia.
    + apply Z.leb_le. nia.
Qed.

(** X8: sanitizeTaskForStorage throws on what is not an object; a task that
    it returns has a text that validateTaskText accepts, of at most 200
    characters and without angle brackets, an id that is not [<= 0] and
    that is the given id when validateTaskId accepts it and Date.now()
    otherwise, and createdAt as its only further property. *)
Theorem sanitizeTaskForStorage_result (taskData : JsVal) (now : JsNumber) (stamp : jsstring) :
  (truthy taskData && String.eqb (typeof taskData) "object" = false ->
   sanitizeTaskForStorage taskData now stamp = Throws "Invalid task data")
  /\ forall task,
       sanitizeTaskForStorage taskData now stamp = Returns task ->
       text_ok task
       /\ (length (text task) <= 200)%nat
       /\ Forall (fun c => c <> 60%N /\ c <> 62%N) (text task)
       /\ num_le_zero (id task) = false
       /\ id task = (if validateTaskId (get taskData "id")
                     then number_of (get taskData "id") else now)
       /\ other task = [("createdAt", or_else (get taskData "createdAt") (JStr stamp))].
Proof.
  unfold sanitizeTaskForStorage. split.
  - intros H. apply andb_false_iff in H as [-> | ->]; [done|].
    by rewrite orb_true_r.
  - intros task. destruct (_ || _); [done|].
    destruct (validateTaskObject _) as [msg|accepted] eqn:Hobject; [done|].
    intros [= <-].
    destruct (validateTaskObject_sanitized_facts _ _ Hobject) as (Hid & _ & _ & _ & Hpositive & _).
    destruct (validateTaskObject_valid _ _ Hobject) as (Hvalid & _).
    cbn [id text other] in *.
    destruct (sanitizeTaskText_guarantees_facts (or_else (get taskData "text") (JStr [])))
      as (Hlength & Hbrackets & _).
    repeat split; try done.
    + unfold text_ok. cbn [text]. by rewrite Hvalid.
    + by rewrite <- Hid.
Qed.

(** ** Further properties of the persistence gateway *)

Lemma saveTasks_outcome_facts (env : SaveEnv) (ts : list Task) (slot : Stored) :
  (snd (saveTasks env ts slot) = true ->
   exists now, fst (saveTasks env ts slot) = setItem_stringify (dataToStore now ts))
  /\ (snd (saveTasks env ts slot) = false ->
      (first_write env = OtherError /\ fst (saveTasks env ts slot) = slot)
      \/ (first_write env = QuotaExceededError
          /\ fst (saveTasks env ts slot) = Absent
          /\ loadTasks (fst (saveTasks env ts slot)) = ([], Absent))).
Proof.
  split.
  - rewrite saveTasks_returns. apply saveTasks_written.
  - unfold saveTasks. destruct (first_write env); [done| |by left].
    destruct (retry_write env); [done|by right..].
Qed.

(** X9: saveTasks answers true exactly when the slot then holds the
    serialisation of the tasks it was given; when it answers false the slot
    is as before (setItem threw another error) or the storage has been
    cleared (the quota was exceeded, also on the retry), and loadTasks then
    finds nothing. *)
Theorem saveTasks_outcome (env : SaveEnv) (ts : list Task) (slot : Stored) :
  (snd (saveTasks env ts slot) = true ->
   exists now, fst (saveTasks env ts slot) = setItem_stringify (dataToStore now ts))
  /\ (snd (saveTasks env ts slot) = false ->
      (first_write env = OtherError /\ fst (saveTasks env ts slot) = slot)
      \/ (first_write env = QuotaExceededError
          /\ fst (saveTasks env ts slot) = Absent
          /\ loadTasks (fst (saveTasks env ts slot)) = ([], Absent))).
Proof. apply saveTasks_outcome_facts. Qed.

(** X10: loadTasks is repeatable: a second load returns the same collection
    and leaves the slot as the first load left it, a corrupted slot having
    been removed by the first. *)
Theorem loadTasks_again (slot : Stored) :
  loadTasks (snd (loadTasks slot)) = (fst (loadTasks slot), snd (loadTasks slot))
  /\ snd (loadTasks slot) <> Corrupt.
Proof.
  destruct slot as [| | |parsedData]; try done.
  assert (Hslot : snd (loadTasks (Parses parsedData)) = Parses parsedData).
  { unfold loadTasks. by repeat destruct (_ || _). }
  rewrite Hslot. split; [|done].
  rewrite <- Hslot at 3. apply surjective_pairing.
Qed.

Lemma Forall2_imap {A B : Type} (R : A -> B -> Prop) (P : A -> Prop) (l : list A) :
  Forall P l ->
  forall f : nat -> A -> B,
    (forall index x, P x -> R x (f index x)) -> Forall2 R l (imap f l).
Proof.
  induction 1 as [|x rest Hx _ IH]; intros f Hf; [constructor|].
  cbn [imap]. constructor; [by apply Hf|]. apply IH. intros index y. apply Hf.
Qed.

Lemma import_keeps_text (entry : JsVal) :
  import_keeps entry = true -> trim (string_of (get entry "text")) <> [].
Proof.
  unfold import_keeps. intros H. apply andb_prop in H as [_ H].
  intros Hempty. by rewrite Hempty in H.
Qed.

Lemma trim_blank (s : jsstring) :
  (0 <? length (trim s))%nat = negb (forallb is_whitespace s).
Proof.
  induction s as [|c r IH]; [done|].
  unfold trim in *. cbn [trimStart forallb].
  destruct (is_whitespace c) eqn:Ec; [exact IH|].
  by rewrite trimEnd_keep.
Qed.

Lemma import_keeps_has_text (entry : JsVal) : import_keeps entry = has_text entry.
Proof.
  unfold import_keeps, has_text.
  destruct entry as [| |b|n|s|items|props]; cbn [truthy typeof get andb];
    eval_eqb; rewrite ?andb_false_r; try done.
  cbn [andb]. destruct (lookup_prop "text" props) as [| |b|n|s|items|props'];
    cbn [typeof string_of]; eval_eqb; try done.
  apply trim_blank.
Qed.

(** X11: importTasks throws 'Import failed: ' followed by the message of
    the parser on a text that JSON.parse rejects, 'Import failed: Invalid
    import data format' on a value that is null or not an object, and
    'Import failed: Import data missing tasks array' on an object whose
    tasks is not an array; otherwise it returns, in their order, one task
    for every entry that is an object with a string text that is not made
    of white space only: the text trimmed, completed turned into a boolean,
    id and createdAt kept when they are truthy. *)
Theorem importTasks_result (env : ImportEnv) :
  (forall syntaxMessage,
      importTasks env (Malformed syntaxMessage)
      = Throws ("Import failed: " ++ syntaxMessage))
  /\ (forall value,
        value = JNull \/ typeof value <> "object" ->
        importTasks env (Text value)
        = Throws "Import failed: Invalid import data format")
  /\ (forall value,
        value <> JNull -> typeof value = "object" ->
        isArray (get value "tasks") = false ->
        importTasks env (Text value)
        = Throws "Import failed: Import data missing tasks array")
  /\ (forall value entries,
        get value "tasks" = JArr entries ->
        exists imported,
          importTasks env (Text value) = Returns imported
          /\ length imported = length (List.filter has_text entries)
          /\ Forall2 imported_from (List.filter has_text entries) imported).
Proof.
  split; [done|]. split; [|split].
  - intros value [->|Hobject]; [done|]. unfold importTasks.
    destruct value; try (by destruct Hobject);
      cbn [typeof]; eval_eqb; by rewrite orb_true_r.
  - intros value Hnull Hobject Harray. unfold importTasks. rewrite Harray.
    destruct value; try done; cbn [truthy typeof negb orb]; eval_eqb;
      cbn [negb orb]; by rewrite orb_true_r.
  - intros value entries Hentries.
    destruct value as [| | | | | |props]; try discriminate Hentries.
    unfold importTasks. rewrite Hentries.
    cbn [truthy typeof negb orb isArray items_of]. eval_eqb. cbn [negb orb].
    rewrite (filter_ext _ _ import_keeps_has_text).
    eexists. split; [reflexivity|]. split; [by rewrite length_imap|].
    apply (Forall2_imap _ (fun entry => import_keeps entry = true)).
    + apply Forall_forall. intros entry Hentry.
      apply list_elem_of_In, filter_In in Hentry as [_ Hkept].
      by rewrite import_keeps_has_text.
    + intros index entry Hkept. unfold imported_from, import_task.
      eexists _, _. split; [reflexivity|].
      split; [by apply import_keeps_text|].
      unfold or_else. split; by intros ->.
Qed.

Lemma import_exported_task (env : ImportEnv) (index : nat) (task : Task) :
  exportable task ->
  import_keeps (stringify_parse (object_of_task task)) = true
  /\ import_task env index (stringify_parse (object_of_task task)) = object_of_task task.
Proof.
  intros (Hfinite & Htruthy & Htrim & Htext & stamp & Hstamp & Hother).
  destruct task as [i t c o]. cbn [id text completed other] in *. subst o.
  unfold object_of_task. cbn [id text completed other stringify_parse props_json].
  rewrite Hfinite. split.
  - unfold import_keeps. cbn [truthy typeof get lookup_prop]. eval_eqb.
    cbn [typeof string_of andb]. eval_eqb. rewrite Htrim.
    destruct t; [done|]. done.
  - unfold import_task, or_else. cbn [get lookup_prop]. eval_eqb.
    cbn [string_of truthy]. cbn [truthy] in Htruthy. rewrite Htruthy, Htrim.
    replace (jsstring_eqb stamp []) with false.
    + by destruct c.
    + symmetry. by apply bool_decide_eq_false.
Qed.

(** X12: importTasks(exportTasks(tasks)) returns the tasks, in their order
    and with all four properties, when every task has a finite id other
    than 0, a trimmed non-empty text and a non-empty string createdAt as its
    only further property. *)
Theorem import_export (env : ImportEnv) (exportedAt : jsstring) (ts : list Task) :
  Forall exportable ts ->
  importTasks env (exportTasks exportedAt ts) = Returns (map object_of_task ts).
Proof.
  intros Hts. unfold exportTasks, importTasks.
  cbn [stringify_parse props_json truthy typeof get lookup_prop].
  eval_eqb. cbn [negb orb truthy isArray items_of]. f_equal.
  assert (Hgeneral : forall f : nat -> JsVal -> JsVal,
            Forall exportable ts ->
            (forall index task, exportable task ->
               f index (stringify_parse (object_of_task task)) = object_of_task task) ->
            imap f (List.filter import_keeps (map stringify_parse (map object_of_task ts)))
            = map object_of_task ts).
  { clear Hts. intros f Hts. revert f.
    induction Hts as [|task rest Htask _ IH]; intros f Hf; [done|].
    cbn [map List.filter].
    destruct (import_exported_task env 0 task Htask) as [-> _].
    cbn [imap]. rewrite (Hf 0%nat task Htask). f_equal.
    apply IH. intros index task' Htask'. by apply Hf. }
  apply Hgeneral; [done|].
  intros index task Htask. by apply import_exported_task.
Qed.

(** ** Further properties of the store *)

Lemma checkForDuplicates_spec (newTaskText : jsstring) (ts : list Task) :
  hasDuplicates (checkForDuplicates newTaskText ts) = true
  <-> duplicate_of newTaskText ts.
Proof.
  unfold checkForDuplicates, duplicate_of. cbn [hasDuplicates]. split.
  - induction ts as [|task rest IH]; [done|]. cbn [List.filter].
    destruct (jsstring_eqb _ _) eqn:E.
    + intros _. apply Exists_cons_hd. by apply bool_decide_eq_true in E.
    + intros H. apply Exists_cons_tl. by apply IH.
  - intros H. apply filter_nonempty. eapply Exists_impl; [exact H|].
    intros task Heq. by apply bool_decide_eq_true.
Qed.

Lemma createTask_validated (rawText : JsVal) (cleaned : jsstring) (env : AddEnv) :
  validateTaskText rawText = Valid cleaned ->
  validateTaskObject (createTask cleaned env)
  = (if num_le_zero (new_id env) then Invalid "Task must have a valid ID"
     else Valid (createTask cleaned env))
  /\ createTask cleaned env
     = {| id := new_id env; text := cleaned; completed := false;
          other := [("createdAt", JStr (new_createdAt env))] |}.
Proof.
  intros H.
  destruct (validateTaskText_accepted_facts _ _ H) as (_ & Htrim & Hlength & _ & Hagain).
  unfold validateTaskObject, createTask. cbn [id text completed other].
  rewrite !Htrim, Hagain. split; [|done].
  destruct (num_le_zero (new_id env)); [done|].
  destruct (length cleaned) eqn:El; [lia|]. done.
Qed.

Lemma addTask_outcome_facts (rawText : JsVal) (env : AddEnv) (w : World) :
  (snd (fst (addTask rawText env w)) = true
   <-> exists cleaned,
         validateTaskText rawText = Valid cleaned
         /\ ~ duplicate_of cleaned (tasks w)
         /\ num_le_zero (new_id env) = false)
  /\ (snd (fst (addTask rawText env w)) = true ->
      exists cleaned,
        validateTaskText rawText = Valid cleaned
        /\ tasks (fst (fst (addTask rawText env w)))
           = {| id := new_id env; text := cleaned; completed := false;
                other := [("createdAt", JStr (new_createdAt env))] |} :: tasks w)
  /\ (snd (fst (addTask rawText env w)) = false ->
      fst (fst (addTask rawText env w)) = w).
Proof.
  unfold addTask.
  destruct (validateTaskText rawText) as [msg|cleaned] eqn:Hvalid.
  { cbn. split; [|done]. split; [done|]. by intros (cleaned & [=] & _). }
  destruct (createTask_validated _ _ env Hvalid) as [Hobject Hcreated].
  pose proof (checkForDuplicates_spec cleaned (tasks w)) as Hdup.
  destruct (hasDuplicates _).
  { cbn. split; [|done]. split; [done|].
    intros (cleaned' & [= <-] & Hnone & _). destruct Hnone. by apply Hdup. }
  rewrite Hobject. destruct (num_le_zero (new_id env)) eqn:Hid.
  { cbn. split; [|done]. split; [done|]. by intros (_ & _ & _ & [=]). }
  cbn [fst snd App_saveTasks set_tasks tasks]. split; [|split; [|done]].
  - split; [|done]. intros _. exists cleaned. repeat split.
    intros Hsome. apply Hdup in Hsome. discriminate Hsome.
  - intros _. exists cleaned. by rewrite Hcreated.
Qed.

(** X13: addTask returns true exactly when the text passes validateTaskText,
    its sanitized text is not a duplicate and the new id is not [<= 0]; the
    second validation of the new task never fails on the text. On true the
    new task, with the sanitized text, the new id, completed false and the
    creation stamp, is at the head of the collection; on false the
    collection and the slot are as before. *)
Theorem addTask_outcome (rawText : JsVal) (env : AddEnv) (w : World) :
  (snd (fst (addTask rawText env w)) = true
   <-> exists cleaned,
         validateTaskText rawText = Valid cleaned
         /\ ~ duplicate_of cleaned (tasks w)
         /\ num_le_zero (new_id env) = false)
  /\ (snd (fst (addTask rawText env w)) = true ->
      exists cleaned,
        validateTaskText rawText = Valid cleaned
        /\ tasks (fst (fst (addTask rawText env w)))
           = {| id := new_id env; text := cleaned; completed := false;
                other := [("createdAt", JStr (new_createdAt env))] |} :: tasks w)
  /\ (snd (fst (addTask rawText env w)) = false ->
      fst (fst (addTask rawText env w)) = w).
Proof. apply addTask_outcome_facts. Qed.

(** X14: after a successful addTask, adding a text whose sanitized text is,
    in lower case, the one just added is refused as a duplicate; in
    particular adding the same text again is refused. *)
Theorem addTask_again (rawText rawText' : JsVal) (cleaned cleaned' : jsstring)
    (env env' : AddEnv) (w w' : World) (shown : Shown) :
  addTask rawText env w = (w', true, shown) ->
  validateTaskText rawText = Valid cleaned ->
  validateTaskText rawText' = Valid cleaned' ->
  toLowerCase cleaned' = toLowerCase cleaned ->
  addTask rawText' env' w'
  = (w', false, showValidationMessage "This task already exists" "warning")
  /\ addTask rawText env' w'
     = (w', false, showValidationMessage "This task already exists" "warning").
Proof.
  intros Hadded Hvalid Hvalid' Hsame.
  apply addTask_true in Hadded as (c & task & Hc & _ & Hobject & ->).
  rewrite Hvalid in Hc. injection Hc as <-.
  apply validateTaskObject_valid in Hobject as (Htext & _).
  cbn [text createTask] in Htext.
  destruct (validateTaskText_accepted_facts _ _ Hvalid) as (_ & Htrim & _).
  destruct (validateTaskText_accepted_facts _ _ Hvalid') as (_ & Htrim' & _).
  destruct (validateTaskText_cleaned _ _ Htext) as [Htask _].
  rewrite !Htrim in Htask.
  assert (Hdup : forall c', toLowerCase c' = toLowerCase cleaned -> trim c' = c' ->
            duplicate_of c' (tasks (App_saveTasks (add_save env)
                                      (set_tasks (task :: tasks w) w)))).
  { intros c' Hc' Htrimc'. apply Exists_cons_hd.
    by rewrite Htask, Htrim, Htrimc'. }
  split.
  - unfold addTask. rewrite Hvalid'.
    by rewrite (proj2 (checkForDuplicates_spec _ _) (Hdup cleaned' Hsame Htrim')).
  - unfold addTask. rewrite Hvalid.
    by rewrite (proj2 (checkForDuplicates_spec _ _) (Hdup cleaned eq_refl Htrim)).
Qed.

(** X15: removeTask with the id of the task that a successful addTask has
    just added gives back the collection as it was before the addition,
    whatever ids the other tasks have, provided the new id is not NaN. *)
Theorem removeTask_undoes_addTask (rawText : JsVal) (env : AddEnv) (save : SaveEnv)
    (w w' : World) (shown : Shown) :
  addTask rawText env w = (w', true, shown) ->
  new_id env <> NaN ->
  tasks (removeTask (new_id env) save w') = tasks w.
Proof.
  intros Hadded Hnumber.
  apply addTask_true in Hadded as (cleaned & task & _ & _ & Hobject & ->).
  apply validateTaskObject_valid in Hobject as (_ & Hid & _).
  cbn [id createTask] in Hid.
  unfold removeTask. cbn [App_saveTasks set_tasks tasks findIndex].
  rewrite Hid.
  replace (num_strict_eq (new_id env) (new_id env)) with true; [done|].
  destruct (new_id env) as [|negative|x]; [done| |]; simpl.
  - by destruct negative.
  - symmetry. apply Z.eqb_refl.
Qed.

Lemma filter_lengths {A : Type} (p : A -> bool) (l : list A) :
  length (List.filter p l) + length (List.filter (fun x => negb (p x)) l) = length l.
Proof.
  induction l as [|x rest IH]; [done|]. cbn [List.filter].
  destruct (p x); cbn [negb length]; lia.
Qed.

Lemma filter_filter_none {A : Type} (p : A -> bool) (l : list A) :
  List.filter p (List.filter (fun x => negb (p x)) l) = [].
Proof.
  induction l as [|x rest IH]; [done|]. cbn [List.filter].
  destruct (p x) eqn:E; cbn [negb]; [done|]. cbn [List.filter]. by rewrite E.
Qed.

(** X16: clearCompletedTasks with no completed task only shows 'No completed
    tasks to clear'; with some and the confirmation cancelled it changes
    nothing; with some and the confirmation accepted the collection becomes
    its active view: the active tasks in their order, none completed, the
    length smaller by the count of completed tasks, which the message
    carries; a further call then finds nothing to clear. *)
Theorem clearCompletedTasks_result (accepted : bool) (env : SaveEnv) (w : World) :
  (snd (updateTaskCount (tasks w)) = 0%nat ->
   clearCompletedTasks accepted env w
   = (w, [{| shown_message := "No completed tasks to clear"; shown_type := "warning" |}]))
  /\ (snd (updateTaskCount (tasks w)) <> 0%nat ->
      clearCompletedTasks false env w = (w, [])
      /\ tasks (fst (clearCompletedTasks true env w))
         = filterTasks (tasks w) (JStr (js "active"))
      /\ Forall (fun task => completed task = false)
           (tasks (fst (clearCompletedTasks true env w)))
      /\ length (tasks (fst (clearCompletedTasks true env w)))
         + snd (updateTaskCount (tasks w)) = length (tasks w)
      /\ snd (clearCompletedTasks true env w)
         = [{| shown_message :=
                 decimal (snd (updateTaskCount (tasks w))) ++ " completed task(s) cleared";
               shown_type := "success" |}]
      /\ forall accepted' env',
           snd (clearCompletedTasks accepted' env' (fst (clearCompletedTasks true env w)))
           = [{| shown_message := "No completed tasks to clear";
                 shown_type := "warning" |}]).
Proof.
  unfold updateTaskCount, clearCompletedTasks. cbn [snd]. split.
  - by intros ->.
  - intros Hsome. apply Nat.eqb_neq in Hsome. rewrite Hsome.
    cbn [fst snd App_saveTasks set_tasks tasks].
    split; [done|]. split; [done|]. split; [|split; [|split; [done|]]].
    + apply Forall_forall. intros task Htask.
      apply list_elem_of_In, filter_In in Htask as [_ Htask].
      by apply negb_true_iff in Htask.
    + pose proof (filter_lengths (fun task => completed task) (tasks w)). lia.
    + intros accepted' env'.
      by rewrite (filter_filter_none (fun task => completed task)).
Qed.

Lemma alter_flip_changes (ts : list Task) (index : nat) (task : Task) :
  ts !! index = Some task -> alter flip_completed index ts <> ts.
Proof.
  intros Htask Hsame.
  assert (Hflip : alter flip_completed index ts !! index = Some (flip_completed task)).
  { by rewrite list_lookup_alter_eq, Htask. }
  rewrite Hsame, Htask in Hflip. injection Hflip as Hflip.
  apply (f_equal completed) in Hflip. cbn in Hflip. by destruct (completed task).
Qed.

(** X17: an operation of the store either changes nothing at all, or
    changes the collection and calls saveTasks on the new collection: the
    filter is kept, and the slot holds the new collection when the write
    succeeds, and is as before or cleared when it does not. *)
Theorem step_saves_changes (w : World) (a : Action) :
  step w a = w
  \/ (tasks (step w a) <> tasks w
      /\ currentFilter (step w a) = currentFilter w
      /\ step w a = App_saveTasks (save_env a) (set_tasks (tasks (step w a)) w)
      /\ (write_succeeds (save_env a) = true -> persisted (step w a))
      /\ (write_succeeds (save_env a) = false ->
          localStorage (step w a) = localStorage w
          \/ localStorage (step w a) = Absent)).
Proof.
  assert (Hsaved : forall env ts,
            ts <> tasks w ->
            tasks (App_saveTasks env (set_tasks ts w)) <> tasks w
            /\ currentFilter (App_saveTasks env (set_tasks ts w)) = currentFilter w
            /\ App_saveTasks env (set_tasks ts w)
               = App_saveTasks env
                   (set_tasks (tasks (App_saveTasks env (set_tasks ts w))) w)
            /\ (write_succeeds env = true -> persisted (App_saveTasks env (set_tasks ts w)))
            /\ (write_succeeds env = false ->
                localStorage (App_saveTasks env (set_tasks ts w)) = localStorage w
                \/ localStorage (App_saveTasks env (set_tasks ts w)) = Absent)).
  { intros env ts Hts. repeat split; [done| |].
    - apply App_saveTasks_persisted.
    - intros Hfailed. cbn [App_saveTasks set_tasks tasks localStorage].
      pose proof (saveTasks_returns env ts (localStorage w)) as Hreturned.
      rewrite Hfailed in Hreturned.
      destruct (proj2 (saveTasks_outcome_facts env ts (localStorage w)) Hreturned)
        as [[_ ->]|(_ & -> & _)]; auto. }
  destruct a as [rawText env|taskId env|taskId env|accepted env]; cbn [step save_env].
  - destruct (addTask_slot rawText env w) as [->|(task & -> & _)]; [by left|].
    right. apply Hsaved. intros Hsame. apply (f_equal length) in Hsame.
    cbn in Hsame. lia.
  - unfold toggleTaskCompletion.
    destruct (findIndex _ _) as [index|] eqn:Hindex; [|by left].
    right. apply Hsaved.
    destruct (findIndex_Some _ _ _ Hindex) as (task & Htask & _).
    by apply (alter_flip_changes _ _ task).
  - unfold removeTask.
    destruct (findIndex _ _) as [index|] eqn:Hindex; [|by left].
    right. apply Hsaved.
    destruct (findIndex_Some _ _ _ Hindex) as (task & Htask & _).
    intros Hsame. apply (f_equal length) in Hsame.
    rewrite length_delete in Hsame by eauto.
    apply lookup_lt_Some in Htask. lia.
  - unfold clearCompletedTasks.
    destruct (_ =? 0)%nat eqn:Hcount; [by left|].
    destruct accepted; [|by left]. right. cbn [fst]. apply Hsaved.
    intros Hsame. apply (f_equal length) in Hsame.
    pose proof (filter_lengths (fun task => completed task) (tasks w)).
    apply Nat.eqb_neq in Hcount. lia.
Qed.

(** X18: no operation of the store edits a task: every task of the
    collection after an operation is a task that was there before, with the
    same id, text and other properties, or is the task that addTask has just
    made, with the new id, a text that validateTaskText returns for the raw
    text, and completed false. *)
Theorem step_keeps_identity (w : World) (a : Action) (task' : Task) :
  task' ∈ tasks (step w a) ->
  (exists task, task ∈ tasks w /\ same_identity task task')
  \/ (exists rawText env,
        a = AddTask rawText env
        /\ id task' = new_id env /\ completed task' = false
        /\ validateTaskText rawText = Valid (text task')).
Proof.
  assert (Hold : forall task, task ∈ tasks w ->
            exists task0, task0 ∈ tasks w /\ same_identity task0 task).
  { intros task Htask. by exists task. }
  destruct a as [rawText env|taskId env|taskId env|accepted env]; cbn [step].
  - destruct (addTask rawText env w) as [[w' [|]] shown] eqn:Hadd; cbn [fst].
    + destruct (proj1 (proj2 (addTask_outcome_facts rawText env w))) as (cleaned & Hvalid & Htasks).
      { by rewrite Hadd. }
      rewrite Hadd in Htasks. cbn [fst] in Htasks. rewrite Htasks.
      intros [->|Htask]%elem_of_cons; [|left; by apply Hold].
      right. exists rawText, env. by rewrite Hvalid.
    + pose proof (proj2 (proj2 (addTask_outcome_facts rawText env w))) as Hsame.
      rewrite Hadd in Hsame. cbn [fst snd] in Hsame. rewrite (Hsame eq_refl).
      intros Htask. left. by apply Hold.
  - unfold toggleTaskCompletion.
    destruct (findIndex _ _) as [index|]; [|intros Htask; left; by apply Hold].
    cbn [App_saveTasks set_tasks tasks].
    intros (j & Hj)%list_elem_of_lookup. left.
    destruct (decide (index = j)) as [<-|Hne].
    + rewrite list_lookup_alter_eq in Hj.
      destruct (tasks w !! index) as [task|] eqn:Htask; [|done].
      injection Hj as <-. exists task. split; [|done].
      apply list_elem_of_lookup. eauto.
    + rewrite list_lookup_alter_ne in Hj by done.
      apply Hold, list_elem_of_lookup. eauto.
  - unfold removeTask.
    destruct (findIndex _ _) as [index|]; [|intros Htask; left; by apply Hold].
    cbn [App_saveTasks set_tasks tasks].
    intros Htask%list_elem_of_delete_inv. left. by apply Hold.
  - unfold clearCompletedTasks. destruct (_ =? 0)%nat; [intros Htask; left; by apply Hold|].
    destruct accepted; [|intros Htask; left; by apply Hold].
    cbn [fst App_saveTasks set_tasks tasks].
    intros Htask. left. apply Hold.
    apply list_elem_of_In, filter_In in Htask as [Htask _]. by apply list_elem_of_In.
Qed.

(** ** Further properties of the views *)

(** X19: the 'active' and the 'completed' view split the collection: put
    one after the other they are a permutation of it, a task of the
    collection is in the 'active' view exactly when it is not completed and
    in the 'completed' view exactly when it is, and the two numbers of
    updateTaskCount are the length of the collection and the length of the
    'completed' view. *)
Theorem filterTasks_split (ts : list Task) :
  Permutation
    (filterTasks ts (JStr (js "active")) ++ filterTasks ts (JStr (js "completed"))) ts
  /\ (forall task,
        (task ∈ filterTasks ts (JStr (js "active"))
         <-> task ∈ ts /\ completed task = false)
        /\ (task ∈ filterTasks ts (JStr (js "completed"))
            <-> task ∈ ts /\ completed task = true))
  /\ updateTaskCount ts
     = (length (filterTasks ts (JStr (js "all"))),
        length (filterTasks ts (JStr (js "completed"))))
  /\ length (filterTasks ts (JStr (js "active"))) + snd (updateTaskCount ts) = length ts.
Proof.
  change (filterTasks ts (JStr (js "active")))
    with (List.filter (fun task => negb (completed task)) ts).
  change (filterTasks ts (JStr (js "completed")))
    with (List.filter (fun task => completed task) ts).
  change (filterTasks ts (JStr (js "all"))) with ts.
  split; [|split; [|split; [done|]]].
  - induction ts as [|task rest IH]; [done|]. cbn [List.filter].
    destruct (completed task); cbn [negb].
    + rewrite <- Permutation_middle. by constructor.
    + cbn. by constructor.
  - intros task. split.
    + rewrite list_elem_of_In, filter_In, negb_true_iff. by rewrite <- list_elem_of_In.
    + rewrite list_elem_of_In, filter_In. by rewrite <- list_elem_of_In.
  - cbn [updateTaskCount snd].
    pose proof (filter_lengths (fun task => completed task) ts). lia.
Qed.

(** X20: for the filters 'all', 'active', 'completed' and for the default
    of a missing filter, the test that addTaskToList makes on one task
    selects exactly the tasks that filterTasks keeps. *)
Theorem shouldShow_filterTasks (filter : JsVal) (ts : list Task) :
  filter = JUndefined \/ filter = JStr (js "all")
  \/ filter = JStr (js "active") \/ filter = JStr (js "completed") ->
  filterTasks ts filter = List.filter (shouldShow filter) ts.
Proof.
  assert (Hall : forall l : list Task, List.filter (fun _ => true) l = l).
  { induction l as [|x rest IH]; [done|]. cbn. by rewrite IH. }
  intros [->|[->|[->| ->]]].
  - symmetry. apply Hall.
  - symmetry. apply Hall.
  - apply List.filter_ext. intros task. unfold shouldShow. cbn.
    by destruct (completed task).
  - apply List.filter_ext. intros task. unfold shouldShow. cbn.
    by destruct (completed task).
Qed.

(** ** Further invariants of the store *)

Lemma map_id_alter_flip (ts : list Task) (index : nat) :
  map id (alter flip_completed index ts) = map id ts.
Proof.
  revert index. induction ts as [|task rest IH]; intros [|index]; cbn; try done.
  by rewrite <- (IH index).
Qed.

Lemma NoDup_map_filter {A B : Type} (f : A -> B) (p : A -> bool) (l : list A) :
  NoDup (map f l) -> NoDup (map f (List.filter p l)).
Proof.
  induction l as [|x rest IH]; [done|]. cbn [map]. intros Hnodup.
  apply NoDup_cons in Hnodup as [Hnotin Hrest]. cbn [List.filter].
  destruct (p x); [|by apply IH]. cbn [map]. apply NoDup_cons. split; [|by apply IH].
  intros Hin. apply Hnotin.
  apply list_elem_of_In, in_map_iff in Hin as (y & <- & Hy).
  apply filter_In in Hy as [Hy _]. apply list_elem_of_In. by apply in_map.
Qed.

Lemma NoDup_map_delete {A B : Type} (f : A -> B) (index : nat) (l : list A) :
  NoDup (map f l) -> NoDup (map f (delete index l)).
Proof.
  revert index. induction l as [|x rest IH]; intros [|index]; cbn; try done.
  - intros Hnodup. by apply NoDup_cons in Hnodup as [_ Hrest].
  - intros Hnodup. apply NoDup_cons in Hnodup as [Hnotin Hrest].
    apply NoDup_cons. split; [|by apply IH].
    intros Hin. apply Hnotin.
    apply list_elem_of_In, in_map_iff in Hin as (y & <- & Hy).
    apply list_elem_of_In. apply in_map.
    by apply list_elem_of_In, (list_elem_of_delete_inv _ index), list_elem_of_In.
Qed.

(** X21: the operations of the store keep the ids pairwise distinct, provided
    the id that addTask draws is not the id of a task of the collection. *)
Theorem step_keeps_ids_distinct (w : World) (a : Action) :
  NoDup (map id (tasks w)) ->
  (forall rawText env, a = AddTask rawText env -> new_id env ∉ map id (tasks w)) ->
  NoDup (map id (tasks (step w a))).
Proof.
  intros Hnodup Hfresh.
  destruct a as [rawText env|taskId env|taskId env|accepted env]; cbn [step].
  - destruct (addTask rawText env w) as [[w' [|]] shown] eqn:Hadd; cbn [fst].
    + apply addTask_true in Hadd as (cleaned & task & _ & _ & Hobject & ->).
      apply validateTaskObject_valid in Hobject as (_ & Hid & _).
      cbn [App_saveTasks set_tasks tasks map]. apply NoDup_cons.
      split; [|done]. rewrite Hid. by apply (Hfresh rawText env).
    + pose proof (proj2 (proj2 (addTask_outcome_facts rawText env w))) as Hsame.
      rewrite Hadd in Hsame. cbn [fst snd] in Hsame. by rewrite (Hsame eq_refl).
  - unfold toggleTaskCompletion. destruct (findIndex _ _); [|done].
    cbn [App_saveTasks set_tasks tasks]. by rewrite map_id_alter_flip.
  - unfold removeTask. destruct (findIndex _ _); [|done].
    cbn [App_saveTasks set_tasks tasks]. by apply NoDup_map_delete.
  - unfold clearCompletedTasks. destruct (_ =? 0)%nat; [done|].
    destruct accepted; [|done]. cbn [fst App_saveTasks set_tasks tasks].
    by apply NoDup_map_filter.
Qed.

Lemma completed_count_alter (ts : list Task) (index : nat) (task : Task) :
  ts !! index = Some task ->
  length (List.filter (fun t => completed t) (alter flip_completed index ts))
  + (if completed task then 1 else 0)
  = length (List.filter (fun t => completed t) ts)
    + (if completed task then 0 else 1).
Proof.
  revert index. induction ts as [|x rest IH]; intros [|index] Htask; try done.
  - injection Htask as ->. cbn. destruct (completed task); cbn; lia.
  - cbn [alter list_alter List.filter]. specialize (IH index Htask).
    change (list_alter flip_completed index rest) with (alter flip_completed index rest).
    destruct (completed x); cbn [length]; lia.
Qed.

(** X22: when some task has the id, toggleTaskCompletion keeps the total
    that updateTaskCount shows and moves its count of completed tasks by
    exactly one: up when the first task with the id was active, down when
    it was completed. *)
Theorem toggleTaskCompletion_counts (taskId : JsNumber) (env : SaveEnv) (w : World) :
  has_id taskId (tasks w) ->
  exists index task,
    findIndex (fun t => num_strict_eq (id t) taskId) (tasks w) = Some index
    /\ tasks w !! index = Some task
    /\ fst (updateTaskCount (tasks (toggleTaskCompletion taskId env w)))
       = fst (updateTaskCount (tasks w))
    /\ snd (updateTaskCount (tasks (toggleTaskCompletion taskId env w)))
       + (if completed task then 1 else 0)
       = snd (updateTaskCount (tasks w)) + (if completed task then 0 else 1).
Proof.
  intros H. apply findIndex_Exists in H as [index Hindex].
  destruct (findIndex_Some _ _ _ Hindex) as (task & Htask & _).
  exists index, task. rewrite (toggle_tasks _ _ _ _ Hindex).
  cbn [App_saveTasks set_tasks tasks updateTaskCount fst snd].
  split; [exact Hindex|]. split; [exact Htask|]. split.
  { apply length_alter. }
  by apply completed_count_alter.
Qed.


End TaskFlow.

(** ** The properties on the sample data *)

Import Sample.

(** C1 (as stated) fails: the stored payload [twins] loads as two tasks of
    id 1, and after removeTask(1) a task of id 1 remains; and removeTask(3),
    where no task has the id 3, changes nothing and has the value undefined,
    the very value of a call that removes a task: no NotFound is reported. *)
Lemma removeTask_leaves_twin :
  has_id (num 1) (tasks (init Written (Parses twins)))
  /\ text <$> tasks (removeTask (num 1) writes (init Written (Parses twins)))
     = [js "Walk the dog"]
  /\ has_id (num 1) (tasks (removeTask (num 1) writes (init Written (Parses twins))))
  /\ ~ lacks_id (num 1) (tasks (removeTask (num 1) writes (init Written (Parses twins))))
  /\ lacks_id (num 3) (tasks world)
  /\ removeTask (num 3) writes world = world
  /\ removeTask_value (num 3) world = JUndefined
  /\ has_id (num 1) (tasks world)
  /\ removeTask_value (num 1) world = removeTask_value (num 3) world.
Proof.
  split; [apply Exists_cons_hd; reflexivity|]. split; [reflexivity|].
  split; [apply Exists_cons_hd; reflexivity|].
  split.
  { intros Hnone. apply Forall_cons in Hnone as [Hid _]. discriminate Hid. }
  split; [repeat constructor|]. split; [reflexivity|]. split; [reflexivity|].
  split; [apply Exists_cons_hd; reflexivity|reflexivity].
Qed.

Lemma removeTask_spec_witness :
  removeTask (num 3) writes world = world
  /\ (exists index task,
        tasks world !! index = Some task
        /\ num_strict_eq (id task) (num 2) = true
        /\ (forall j earlier,
              (j < index)%nat -> tasks world !! j = Some earlier ->
              num_strict_eq (id earlier) (num 2) = false)
        /\ tasks (removeTask (num 2) writes world) = delete index (tasks world))
  /\ S (length (tasks (removeTask (num 2) writes world))) = length (tasks world)
  /\ lacks_id (num 2) (tasks (removeTask (num 2) writes world)).
Proof.
  split.
  - apply (proj1 (removeTask_spec (num 3) writes world)).
    repeat constructor.
  - destruct (proj1 (proj2 (removeTask_spec (num 2) writes world)))
      as (Hfirst & Hlength & Hgone).
    + apply Exists_cons_tl, Exists_cons_hd. reflexivity.
    + split; [exact Hfirst|]. split; [exact Hlength|]. apply Hgone.
      apply (bool_decide_unpack (NoDup (map id (tasks world)))). vm_compute. exact I.
Defined.

(** C2 (as stated) fails: the stored payload [blank] loads as a task whose
    text is the empty string, which validateTaskText refuses. *)
Lemma loaded_text_not_validated :
  tasks (run asciiLower [] (init Written (Parses blank)))
  = [{| id := num 1; text := []; completed := false; other := [] |}]
  /\ ~ store_texts_ok asciiLower (run asciiLower [] (init Written (Parses blank))).
Proof.
  split; [reflexivity|]. intros [Htasks _].
  apply Forall_cons in Htasks as [Htext _]. discriminate Htext.
Qed.

Lemma texts_stay_valid_witness :
  store_texts_ok asciiLower
    (run asciiLower
       [AddTask (JStr (js "  Buy milk ")) (adds 1);
        ToggleTaskCompletion (num 1) writes;
        AddTask (JStr (js "Bake bread")) (adds 2);
        ClearCompletedTasks true refuses;
        RemoveTask (num 2) writes]
       (init Written Absent)).
Proof.
  apply (proj2 (texts_stay_valid asciiLower) Written Absent). simpl. constructor.
Defined.



Lemma loadTasks_spec_witness :
  loadTasks (Parses (JObj [("tasks", JStr (js "none"))]))
  = ([], Parses (JObj [("tasks", JStr (js "none"))]))
  /\ snd (loadTasks (Parses mixed)) = Parses mixed
  /\ Forall2 same_fields [entry 1 "Buy milk"] (fst (loadTasks (Parses mixed))).
Proof.
  destruct loadTasks_spec as (_ & Hmissing & Harray). split.
  - apply Hmissing. reflexivity.
  - exact (Harray mixed _ eq_refl).
Defined.

(** C5 (as stated) fails: when the quota is exceeded on the write and on
    the retry, saveTasks has cleared the storage and loadTasks returns
    nothing; and a task whose id is Infinity is written with the id [null]
    and dropped by loadTasks, although saveTasks reports success. *)
Lemma load_after_save_differs :
  four_fields milk
  /\ fst (loadTasks (fst (saveTasks full [milk] Absent))) <> [milk]
  /\ four_fields endless
  /\ snd (saveTasks writes [endless] Absent) = true
  /\ fst (loadTasks (fst (saveTasks writes [endless] Absent))) <> [endless].
Proof.
  split; [by eexists|]. split; [discriminate|].
  split; [by eexists|]. split; [reflexivity|discriminate].
Qed.

Lemma load_after_save_witness :
  fst (loadTasks (fst (saveTasks writes [milk; bread] Absent))) = [milk; bread].
Proof.
  apply load_after_save.
  - repeat constructor; by exists (js "2024-05-01T09:00:00.000Z").
  - reflexivity.
Defined.

(** C6 (as stated) fails: a text of three spaces is a non-empty string, so
    it passes the first test and fails the minimum length with 'cannot be
    empty', where the rule "non-empty after trimming" answers 'required'. *)
Lemma blank_text_is_too_short :
  validateTaskText asciiLower (JStr (js "   ")) = Invalid Reason.too_short
  /\ validate_by_rules asciiLower nonempty_after_trim (JStr (js "   "))
     = Invalid Reason.required
  /\ validateTaskText asciiLower (JStr (js "   "))
     <> validate_by_rules asciiLower nonempty_after_trim (JStr (js "   ")).
Proof. repeat split. discriminate. Qed.

(** C7 (as stated) fails: when the quota is exceeded on the write and on
    the retry, the task is toggled in memory and the slot holds nothing, so
    that loadTasks reads the empty collection from it; and when the write
    succeeds on a task whose id is Infinity, the id is written as [null]
    and loadTasks drops the task: what the slot gives back is not the
    collection in memory. *)
Lemma toggle_not_persisted :
  has_id (num 1) (tasks world)
  /\ completed <$> tasks (toggleTaskCompletion (num 1) full world) = [true; true]
  /\ localStorage (toggleTaskCompletion (num 1) full world) = Absent
  /\ ~ persisted (toggleTaskCompletion (num 1) full world)
  /\ fst (loadTasks (localStorage (toggleTaskCompletion (num 1) full world)))
     <> tasks (toggleTaskCompletion (num 1) full world)
  /\ has_id (Infinity false) (tasks endless_world)
  /\ write_succeeds writes = true
  /\ completed <$> tasks (toggleTaskCompletion (Infinity false) writes endless_world)
     = [true]
  /\ fst (loadTasks (localStorage (toggleTaskCompletion (Infinity false) writes endless_world)))
     = []
  /\ fst (loadTasks (localStorage (toggleTaskCompletion (Infinity false) writes endless_world)))
     <> tasks (toggleTaskCompletion (Infinity false) writes endless_world).
Proof.
  split; [apply Exists_cons_hd; reflexivity|].
  split; [reflexivity|]. split; [reflexivity|].
  split; [intros [now Hnow]; discriminate Hnow|].
  split; [discriminate|].
  split; [apply Exists_cons_hd; reflexivity|].
  split; [reflexivity|]. split; [reflexivity|]. split; [reflexivity|discriminate].
Qed.

Lemma toggleTaskCompletion_twice_witness :
  tasks (toggleTaskCompletion (num 2) writes (toggleTaskCompletion (num 2) writes world))
  = tasks world
  /\ persisted (toggleTaskCompletion (num 2) writes world)
  /\ fst (loadTasks (localStorage (toggleTaskCompletion (num 2) writes world)))
     = tasks (toggleTaskCompletion (num 2) writes world)
  /\ fst (loadTasks
            (localStorage
               (toggleTaskCompletion (num 2) writes
                  (toggleTaskCompletion (num 2) writes world))))
     = tasks world.
Proof.
  destruct (toggleTaskCompletion_twice (num 2) writes writes world)
    as (Hback & Hfirst & Hsecond).
  - apply Exists_cons_tl, Exists_cons_hd. reflexivity.
  - destruct (Hfirst eq_refl) as [Hsaved Hread].
    destruct (Hsecond eq_refl) as [_ Hread'].
    split; [exact Hback|]. split; [exact Hsaved|]. split.
    + apply Hread. repeat constructor.
    + rewrite <- Hback. apply Hread'. repeat constructor.
Defined.

Lemma addTask_prepends_witness :
  exists cleaned task,
    cleaned = js "Walk the dog"
    /\ task = {| id := num 3; text := cleaned; completed := false;
                 other := [("createdAt", JStr (js "2024-05-01T09:00:00.000Z"))] |}
    /\ tasks (fst (fst (addTask asciiLower (JStr (js "  Walk the dog ")) (adds 3) world)))
       = task :: tasks world.
Proof.
  destruct (addTask_prepends asciiLower (JStr (js "  Walk the dog ")) (adds 3) world
              _ _ eq_refl)
    as [(cleaned & task & _ & Hcleaned & _ & Htask & Hhead & _) _].
  exists cleaned, task. split; [exact Hcleaned|]. split; [exact Htask|exact Hhead].
Defined.

Lemma toggleTaskCompletion_frame_witness :
  length (tasks (toggleTaskCompletion (num 1) writes world)) = length (tasks world)
  /\ tasks (toggleTaskCompletion (num 1) writes world) !! 1%nat = Some bread.
Proof.
  destruct (toggleTaskCompletion_frame (num 1) writes world) as (Hlength & _ & Hother & _).
  - apply Exists_cons_hd. reflexivity.
  - split; [exact Hlength|]. by apply Hother.
Defined.

Lemma filterTasks_default_witness :
  filterTasks (tasks world) (JStr (js "all")) = tasks world
  /\ filterTasks (tasks world) JUndefined = tasks world.
Proof.
  split; apply filterTasks_default; discriminate.
Defined.

(** ** The further properties on the sample data *)

Lemma validateTaskText_accepted_witness :
  js "Buy milk" = trim (js "  Buy milk ")
  /\ validateTaskText asciiLower (JStr (js "Buy milk")) = Valid (js "Buy milk").
Proof.
  destruct (validateTaskText_accepted asciiLower (JStr (js "  Buy milk ")) (js "Buy milk"))
    as (Htrimmed & _ & _ & _ & Hagain); [reflexivity|].
  by split.
Defined.

Lemma validateTaskText_padding_witness :
  validateTaskText asciiLower (JStr (js "  " ++ js "Buy milk" ++ js " "))
  = validateTaskText asciiLower (JStr (js "Buy milk")).
Proof.
  apply validateTaskText_padding.
  - repeat constructor.
  - repeat constructor.
  - discriminate.
Defined.

Lemma sanitizeTaskText_guarantees_witness :
  sanitizeTaskText JNull = []
  /\ (longest_run is_whitespace (sanitizeTaskText (JStr (js "  a   b "))) <= 1)%nat.
Proof.
  split.
  - apply (sanitizeTaskText_guarantees JNull). reflexivity.
  - apply (sanitizeTaskText_guarantees (JStr (js "  a   b "))).
    repeat constructor; discriminate.
Defined.

Lemma validateTaskObject_sanitized_witness :
  text {| id := num 1; text := js "Buy milk"; completed := false; other := [] |}
  = trim (js " Buy milk ").
Proof.
  apply (validateTaskObject_sanitized asciiLower
           {| id := num 1; text := js " Buy milk "; completed := false; other := [] |}).
  reflexivity.
Defined.

Lemma validateTaskObject_any_accepted_witness :
  task_shaped (entry 1 " Buy milk ") = true
  /\ validateTaskObject_any asciiLower (entry 1 "Buy milk") = Valid (entry 1 "Buy milk").
Proof.
  destruct (validateTaskObject_any_accepted asciiLower
              (entry 1 " Buy milk ") (entry 1 "Buy milk"))
    as (Hshaped & _ & _ & _ & Hagain); [reflexivity|].
  by split.
Defined.


Lemma validateTaskId_integers_witness :
  validateTaskId (JNum (num 5)) = true
  /\ exists n, (1 <= n <= MAX_SAFE_INTEGER)%Z /\ JNum (num 7) = JNum (num n).
Proof.
  split.
  - apply (proj2 (validateTaskId_integers (JNum (num 5)))).
    exists 5%Z. split; [unfold MAX_SAFE_INTEGER; lia|reflexivity].
  - apply (proj1 (validateTaskId_integers (JNum (num 7)))). reflexivity.
Defined.

Lemma sanitizeTaskForStorage_result_witness :
  sanitizeTaskForStorage asciiLower JNull (num 7) (js "2024-05-02T10:00:00.000Z")
  = Throws "Invalid task data"
  /\ text_ok asciiLower
       {| id := num 7; text := js "bBuy/b milk"; completed := true;
          other := [("createdAt", JStr (js "2024-05-02T10:00:00.000Z"))] |}.
Proof.
  split.
  - apply (proj1 (sanitizeTaskForStorage_result asciiLower JNull (num 7) _)). reflexivity.
  - apply (proj2 (sanitizeTaskForStorage_result asciiLower markup (num 7)
                    (js "2024-05-02T10:00:00.000Z"))).
    reflexivity.
Defined.

Lemma saveTasks_outcome_witness :
  (exists now, fst (saveTasks writes [milk] Absent)
               = setItem_stringify (dataToStore now [milk]))
  /\ ((first_write full = OtherError /\ fst (saveTasks full [milk] Absent) = Absent)
      \/ (first_write full = QuotaExceededError
          /\ fst (saveTasks full [milk] Absent) = Absent
          /\ loadTasks (fst (saveTasks full [milk] Absent)) = ([], Absent))).
Proof.
  split.
  - apply (proj1 (saveTasks_outcome writes [milk] Absent)). reflexivity.
  - apply (proj2 (saveTasks_outcome full [milk] Absent)). reflexivity.
Defined.

Lemma importTasks_result_witness :
  importTasks importer (Text JNull)
  = Throws "Import failed: Invalid import data format"
  /\ importTasks importer (Text (JObj [("tasks", JStr (js "none"))]))
     = Throws "Import failed: Import data missing tasks array"
  /\ exists imported,
       importTasks importer (Text mixed) = Returns imported
       /\ length imported = 2%nat
       /\ Forall2 imported_from
            [entry 1 "Buy milk";
             JObj [("id", JStr (js "2")); ("text", JStr (js "Bake bread"));
                   ("completed", JBool true)]]
            imported.
Proof.
  destruct (importTasks_result importer) as (_ & Hformat & Hmissing & Harray).
  split; [apply Hformat; by left|]. split.
  - apply Hmissing; [discriminate|reflexivity|reflexivity].
  - exact (Harray mixed _ eq_refl).
Defined.

Lemma import_export_witness :
  importTasks importer (exportTasks (js "2024-05-02T10:00:00.000Z") [milk; bread])
  = Returns (map object_of_task [milk; bread]).
Proof.
  apply import_export.
  constructor; [|constructor; [|constructor]];
    (split; [reflexivity|]; split; [reflexivity|]; split; [reflexivity|];
     split; [discriminate|];
     exists (js "2024-05-01T09:00:00.000Z"); split; [discriminate|reflexivity]).
Defined.

Lemma addTask_outcome_witness :
  snd (fst (addTask asciiLower (JStr (js " Walk the dog ")) (adds 3) world)) = true
  /\ fst (fst (addTask asciiLower (JStr (js "buy MILK")) (adds 3) world)) = world.
Proof.
  destruct (addTask_outcome asciiLower (JStr (js " Walk the dog ")) (adds 3) world)
    as ([_ Hadded] & _ & _).
  destruct (addTask_outcome asciiLower (JStr (js "buy MILK")) (adds 3) world)
    as (_ & _ & Hrefused).
  split.
  - apply Hadded. exists (js "Walk the dog"). repeat split.
    intros Hdup. apply Exists_cons in Hdup as [Hdup|Hdup]; [discriminate Hdup|].
    apply Exists_cons in Hdup as [Hdup|Hdup]; [discriminate Hdup|].
    by apply Exists_nil in Hdup.
  - apply Hrefused. reflexivity.
Defined.

Lemma addTask_again_witness :
  addTask asciiLower (JStr (js "WALK the dog  ")) (adds 4)
    (fst (fst (addTask asciiLower (JStr (js " Walk the dog ")) (adds 3) world)))
  = (fst (fst (addTask asciiLower (JStr (js " Walk the dog ")) (adds 3) world)),
     false, showValidationMessage "This task already exists" "warning").
Proof.
  apply (addTask_again asciiLower (JStr (js " Walk the dog ")) (JStr (js "WALK the dog  "))
           (js "Walk the dog") (js "WALK the dog") (adds 3) (adds 4) world _
           (showValidationMessage "Task added successfully!" "success"));
    reflexivity.
Defined.

Lemma removeTask_undoes_addTask_witness :
  tasks (removeTask (num 3) writes
           (fst (fst (addTask asciiLower (JStr (js " Walk the dog ")) (adds 3) world))))
  = tasks world.
Proof.
  apply (removeTask_undoes_addTask asciiLower (JStr (js " Walk the dog ")) (adds 3) writes
           world _ (showValidationMessage "Task added successfully!" "success")).
  - reflexivity.
  - discriminate.
Defined.

Lemma clearCompletedTasks_result_witness :
  tasks (fst (clearCompletedTasks true writes world)) = [milk]
  /\ snd (clearCompletedTasks true writes world)
     = [{| shown_message := "1 completed task(s) cleared"; shown_type := "success" |}]
  /\ snd (clearCompletedTasks true writes (fst (clearCompletedTasks true writes world)))
     = [{| shown_message := "No completed tasks to clear"; shown_type := "warning" |}].
Proof.
  destruct (proj2 (clearCompletedTasks_result true writes world))
    as (_ & Hactive & _ & _ & Hshown & Hagain); [discriminate|].
  split; [exact Hactive|]. split; [exact Hshown|]. apply Hagain.
Defined.

Lemma step_saves_changes_witness :
  persisted (step asciiLower world (ToggleTaskCompletion (num 1) writes)).
Proof.
  destruct (step_saves_changes asciiLower world (ToggleTaskCompletion (num 1) writes))
    as [Hsame|(_ & _ & _ & Hsaved & _)].
  - apply (f_equal (fun w => completed <$> tasks w)) in Hsame. discriminate Hsame.
  - apply Hsaved. reflexivity.
Defined.

Lemma step_keeps_identity_witness :
  (exists task, task ∈ tasks world /\ same_identity task (flip_completed milk))
  \/ (exists rawText env,
        ToggleTaskCompletion (num 1) writes = AddTask rawText env
        /\ id (flip_completed milk) = new_id env
        /\ completed (flip_completed milk) = false
        /\ validateTaskText asciiLower rawText = Valid (text (flip_completed milk))).
Proof.
  apply (step_keeps_identity asciiLower world (ToggleTaskCompletion (num 1) writes)).
  apply list_elem_of_here.
Defined.

Lemma shouldShow_filterTasks_witness :
  filterTasks (tasks world) (JStr (js "active"))
  = List.filter (shouldShow (JStr (js "active"))) (tasks world).
Proof. apply shouldShow_filterTasks. right. right. left. reflexivity. Defined.

Lemma step_keeps_ids_distinct_witness :
  NoDup (map id (tasks (step asciiLower world (AddTask (JStr (js "Walk the dog")) (adds 3))))).
Proof.
  apply step_keeps_ids_distinct.
  - apply (bool_decide_unpack (NoDup (map id (tasks world)))). vm_compute. exact I.
  - intros rawText env [= _ <-].
    apply (bool_decide_unpack (new_id (adds 3) ∉ map id (tasks world))).
    vm_compute. exact I.
Defined.

Lemma toggleTaskCompletion_counts_witness :
  exists index task,
    findIndex (fun t => num_strict_eq (id t) (num 1)) (tasks world) = Some index
    /\ tasks world !! index = Some task
    /\ fst (updateTaskCount (tasks (toggleTaskCompletion (num 1) writes world)))
       = fst (updateTaskCount (tasks world))
    /\ snd (updateTaskCount (tasks (toggleTaskCompletion (num 1) writes world)))
       + (if completed task then 1 else 0)
       = snd (updateTaskCount (tasks world)) + (if completed task then 0 else 1).
Proof.
  apply toggleTaskCompletion_counts. apply Exists_cons_hd. reflexivity.
Defined.

